(** * Mini-Shell: the command evaluator of [src/cmd.c]

    A shallow embedding of [redirect], [restore_fd], [split_env_command],
    [shell_cd], [parse_simple] and [parse_command], over a small model of
    the operating-system services they call (descriptor table, files,
    processes and their wait statuses, working directory, environment). *)

From Stdlib Require Import ZArith Lia Ascii String List.
From stdpp Require Import base option list gmap strings fin_maps.

Local Open Scope string_scope.
Local Open Scope Z_scope.

(** ** Constants of the C library and of the missing headers *)

Definition STDIN_FILENO : Z := 0.
Definition STDOUT_FILENO : Z := 1.
Definition STDERR_FILENO : Z := 2.

Definition EXIT_SUCCESS : Z := 0.
Definition EXIT_FAILURE : Z := 1.

(** Modelled from the spec: [cmd.h] is not part of the sources; the spec
    only says that the shell-exit sentinel is a distinguished value,
    distinct from ordinary success and failure. The value is the one of
    the course skeleton the file was written against. *)
Definition SHELL_EXIT : Z := -100.

(** <fcntl.h>, Linux values. *)
Definition O_RDONLY : Z := 0.
Definition O_WRONLY : Z := 1.
Definition O_CREAT : Z := 64.
Definition O_TRUNC : Z := 512.
Definition O_APPEND : Z := 1024.

(** <errno.h>, Linux values. *)
Definition ENOENT : Z := 2.
Definition EBADF : Z := 9.
Definition ECHILD : Z := 10.
Definition EACCES : Z := 13.
Definition EFAULT : Z := 14.
Definition ENOTDIR : Z := 20.
Definition EISDIR : Z := 21.
Definition EINVAL : Z := 22.

Definition newline : string := String (ascii_of_nat 10) EmptyString.

Definition strerror (e : Z) : string :=
  if e =? ENOENT then "No such file or directory"
  else if e =? EBADF then "Bad file descriptor"
  else if e =? ECHILD then "No child processes"
  else if e =? EACCES then "Permission denied"
  else if e =? EFAULT then "Bad address"
  else if e =? ENOTDIR then "Not a directory"
  else if e =? EISDIR then "Is a directory"
  else if e =? EINVAL then "Invalid argument"
  else "Unknown error".

(** Wait statuses: [exit(c)] leaves the low eight bits of [c] in bits
    8..15; a process killed by signal [s] leaves [s] in the low bits. *)
Definition wexit (code : Z) : Z := Z.shiftl (Z.land code 255) 8.
Definition WEXITSTATUS (wstatus : Z) : Z := Z.shiftr (Z.land wstatus 65280) 8.
Definition SIGSEGV : Z := 11.

(** ** C strings and [split_env_command] *)

Module CString.

Definition NUL : ascii := Ascii.zero.
Definition EQ : ascii := "="%char.

(** The buffer that holds a C string: its characters and the
    terminator. *)
Definition buffer_of (s : string) : list ascii :=
  list_ascii_of_string s ++ [NUL].

(** The C string that starts at offset [off] of a buffer: the
    characters up to the first terminator. *)
Fixpoint upto_nul (l : list ascii) : list ascii :=
  match l with
  | [] => []
  | c :: tl => if Ascii.eqb c NUL then [] else c :: upto_nul tl
  end.

Definition string_at (buf : list ascii) (off : nat) : string :=
  string_of_list_ascii (upto_nul (drop off buf)).

(** The loop that advances [p] while the character under it is not
    '=', run over what is left of the buffer from [p] on. [None]: the
    scan read past the end of the buffer. *)
Fixpoint scan (rest : list ascii) (p : nat) : option nat :=
  match rest with
  | [] => None
  | c :: tl => if Ascii.eqb c EQ then Some p else scan tl (S p)
  end.

(** [split_env_command]: the buffer after the terminator is stored
    under [p], and the offsets of [var] and [value] in it. *)
Definition split_env_command (command : list ascii)
  : option (list ascii * nat * nat) :=
  match scan command 0 with
  | None => None
  | Some p => Some (<[p := NUL]> command, 0%nat, S p)
  end.

(** What the caller reads through [var] and [value]. *)
Definition split_strings (s : string) : option (string * string) :=
  match split_env_command (buffer_of s) with
  | None => None
  | Some (buf, var, value) => Some (string_at buf var, string_at buf value)
  end.

End CString.

(** ** The command tree of [cmd.h] *)

(** A word: the string of its first part and the strings of the parts
    chained to it through [next_part]. *)
Record word := mk_word { w_string : string; next_parts : list string }.

Inductive operator :=
| OP_SEQUENTIAL | OP_PARALLEL | OP_CONDITIONAL_NZERO | OP_CONDITIONAL_ZERO
| OP_PIPE.

Record simple_command := mk_simple {
  verb : word;
  params : list word;
  s_in : option word;
  s_out : option word;
  s_err : option word;
  io_flags : Z
}.

(** [Null] is the null pointer, [Scmd] a node with [op == OP_NONE],
    [Dummy] one with [op == OP_DUMMY]. *)
Inductive command :=
| Null
| Scmd (scmd : simple_command)
| Dummy
| Node (op : operator) (cmd1 cmd2 : command).

(** What a node sees through its [up] link: nothing at the root, or the
    operator of its parent and what the parent's [cmd2] is. The links
    are those of a tree: the [up] of a child is the node that holds it. *)
Inductive cmd2_kind := IsNull | IsSelf | IsOther.
Inductive uplink := Root | Up (op : operator) (cmd2 : cmd2_kind).

Definition is_null (c : command) : bool :=
  match c with Null => true | _ => false end.

Definition up_of_cmd1 (op : operator) (cmd2 : command) : uplink :=
  Up op (match cmd2 with Null => IsNull | _ => IsOther end).
Definition up_of_cmd2 (op : operator) : uplink := Up op IsSelf.

(** Modelled from the spec: [get_word] and [get_argv] of [utils.h] are not
    part of the sources; a word resolves to the concatenation of its
    parts, a null word to a null string, and the argument vector is the
    verb followed by the parameters. *)
Definition word_string (w : word) : string :=
  w_string w ++ String.concat "" (next_parts w).
Definition get_word (w : option word) : option string := word_string <$> w.
Definition get_argv (s : simple_command) : list string :=
  word_string (verb s) :: map word_string (params s).

(** ** The operating system *)

(** What a descriptor refers to. *)
Inductive Target :=
| Tty (n : Z)
| File (path : string) (flags : Z)
| PipeRd (id : Z)
| PipeWr (id : Z).

Inductive FileNode := Dir | Reg (readable writable : bool).

Inductive Event :=
| EvWrite (t : Target) (s : string)
| EvCreate (path : string) (mode : Z)
| EvTrunc (path : string)
| EvExec (pid : Z) (argv : list string) (stdin stdout stderr : option Target)
| EvDie (call : string) (errno : Z).

(** The state of one process; [children] holds the terminated children
    that were not waited for yet, with their wait statuses. *)
Record Proc := mk_proc {
  pid : Z;
  pgid : Z;
  fds : gmap Z Target;
  cwd : string;
  env : gmap string string;
  children : list (Z * Z);
  errno : Z
}.

(** What all processes share. *)
Record World := mk_world {
  files : gmap string FileNode;
  next_pid : Z;
  next_pipe : Z;
  log : list Event
}.

Record State := mk_state { proc : Proc; world : World }.

Definition set_fds (t : gmap Z Target) (p : Proc) : Proc :=
  mk_proc (pid p) (pgid p) t (cwd p) (env p) (children p) (errno p).
Definition set_cwd (d : string) (p : Proc) : Proc :=
  mk_proc (pid p) (pgid p) (fds p) d (env p) (children p) (errno p).
Definition set_env (e : gmap string string) (p : Proc) : Proc :=
  mk_proc (pid p) (pgid p) (fds p) (cwd p) e (children p) (errno p).
Definition set_children (l : list (Z * Z)) (p : Proc) : Proc :=
  mk_proc (pid p) (pgid p) (fds p) (cwd p) (env p) l (errno p).
Definition set_errno (e : Z) (p : Proc) : Proc :=
  mk_proc (pid p) (pgid p) (fds p) (cwd p) (env p) (children p) e.

Definition log_event (e : Event) (w : World) : World :=
  mk_world (files w) (next_pid w) (next_pipe w) (log w ++ [e]).
Definition set_files (f : gmap string FileNode) (w : World) : World :=
  mk_world f (next_pid w) (next_pipe w) (log w).

Definition on_proc (f : Proc -> Proc) (st : State) : State :=
  mk_state (f (proc st)) (world st).
Definition on_world (f : World -> World) (st : State) : State :=
  mk_state (proc st) (f (world st)).

(** How a call ends: it returns a value in a new state, the process
    terminates with a wait status, or the behaviour is undefined (an
    uninitialised variable is read, a null string is printed). *)
Inductive Outcome (A : Type) :=
| Ret (a : A) (st : State)
| Term (wstatus : Z) (w : World)
| Undef.
Arguments Ret {A} a st.
Arguments Term {A} wstatus w.
Arguments Undef {A}.

Definition M (A : Type) : Type := State -> Outcome A.

Definition ret {A} (a : A) : M A := fun st => Ret a st.
Definition bind {A B} (m : M A) (f : A -> M B) : M B :=
  fun st =>
    match m st with
    | Ret a st' => f a st'
    | Term ws w => Term ws w
    | Undef => Undef
    end.
Arguments bind : simpl never.
Definition undef {A} : M A := fun _ => Undef.
Definition segfault {A} : M A := fun st => Term SIGSEGV (world st).
Definition exit_ {A} (code : Z) : M A := fun st => Term (wexit code) (world st).

Declare Scope sh_scope.
Delimit Scope sh_scope with sh.
Notation "'let*' x ':=' m 'in' k" := (bind m (fun x => k))
  (at level 10, x name, m at level 100, k at level 200, only parsing)
  : sh_scope.
Local Open Scope sh_scope.

(** *** Descriptors *)

(** The lowest descriptor number that is not open. *)
Definition lowest_free (t : gmap Z Target) : Z :=
  default (Z.of_nat (S (size t)))
    (List.find (fun n => bool_decide (t !! n = None))
       (map Z.of_nat (seq 0 (S (size t))))).
Arguments lowest_free : simpl never.

(** The three standard streams are open. *)
Definition std_open (t : gmap Z Target) : Prop :=
  is_Some (t !! STDIN_FILENO) /\ is_Some (t !! STDOUT_FILENO)
  /\ is_Some (t !! STDERR_FILENO).

Definition sys_dup (fd : Z) : M Z := fun st =>
  match fds (proc st) !! fd with
  | Some t =>
      let n := lowest_free (fds (proc st)) in
      Ret n (on_proc (set_fds (<[n := t]> (fds (proc st)))) st)
  | None => Ret (-1) (on_proc (set_errno EBADF) st)
  end.

Definition sys_dup2 (fd fd2 : Z) : M Z := fun st =>
  match fds (proc st) !! fd with
  | Some t =>
      if fd2 <? 0 then Ret (-1) (on_proc (set_errno EBADF) st)
      else Ret fd2 (on_proc (set_fds (<[fd2 := t]> (fds (proc st)))) st)
  | None => Ret (-1) (on_proc (set_errno EBADF) st)
  end.

Definition sys_close (fd : Z) : M Z := fun st =>
  match fds (proc st) !! fd with
  | Some _ => Ret 0 (on_proc (set_fds (delete fd (fds (proc st)))) st)
  | None => Ret (-1) (on_proc (set_errno EBADF) st)
  end.

Definition has_flag (flags f : Z) : bool := negb (Z.land flags f =? 0).

(** [open]: the error, or the world after the call. A missing file is
    created only under [O_CREAT]; an existing one is opened if its
    permissions allow the access mode. *)
Definition open_check (w : World) (path : option string) (flags mode : Z)
  : Z + World :=
  match path with
  | None => inl EFAULT
  | Some f =>
      if String.eqb f "" then inl ENOENT else
      match files w !! f with
      | None =>
          if has_flag flags O_CREAT
          then inr (log_event (EvCreate f mode)
                      (set_files (<[f := Reg (Z.testbit mode 8)
                                             (Z.testbit mode 7)]> (files w)) w))
          else inl ENOENT
      | Some Dir => if has_flag flags 3 then inl EISDIR else inr w
      | Some (Reg r wr) =>
          if has_flag flags 3 then
            if wr then
              inr (if has_flag flags O_TRUNC then log_event (EvTrunc f) w else w)
            else inl EACCES
          else if r then inr w else inl EACCES
      end
  end.

Definition sys_open (path : option string) (flags mode : Z) : M Z := fun st =>
  match open_check (world st) path flags mode with
  | inl e => Ret (-1) (on_proc (set_errno e) st)
  | inr w =>
      let n := lowest_free (fds (proc st)) in
      Ret n (mk_state
               (set_fds (<[n := File (default "" path) flags]> (fds (proc st)))
                  (proc st)) w)
  end.

(** [pipe]: the two lowest free descriptors, read end first. *)
Definition sys_pipe : M (Z * Z) := fun st =>
  let id := next_pipe (world st) in
  let r := lowest_free (fds (proc st)) in
  let t1 := <[r := PipeRd id]> (fds (proc st)) in
  let w := lowest_free t1 in
  Ret (r, w)
    (mk_state (set_fds (<[w := PipeWr id]> t1) (proc st))
       (mk_world (files (world st)) (next_pid (world st)) (id + 1)
          (log (world st)))).

(** [fprintf] on a standard stream followed by [fflush]. *)
Definition sys_write (fd : Z) (s : string) : M unit := fun st =>
  match fds (proc st) !! fd with
  | Some t => Ret tt (on_world (log_event (EvWrite t s)) st)
  | None => Ret tt (on_proc (set_errno EBADF) st)
  end.

Definition get_errno : M Z := fun st => Ret (errno (proc st)) st.

(** Modelled from the spec: the [DIE] macro of [utils.h] is not part of
    the sources; when the assertion holds the process aborts with a
    diagnostic naming the call. *)
Definition DIE (assertion : bool) (call : string) : M unit := fun st =>
  if assertion
  then Term (wexit EXIT_FAILURE)
         (log_event (EvDie call (errno (proc st))) (world st))
  else Ret tt st.

(** *** Working directory and environment *)

(** [chdir]: paths are taken as they are written, without resolution
    against the current directory. *)
Definition sys_chdir (path : string) : M Z := fun st =>
  match files (world st) !! path with
  | Some Dir => Ret 0 (on_proc (set_cwd path) st)
  | Some (Reg _ _) => Ret (-1) (on_proc (set_errno ENOTDIR) st)
  | None => Ret (-1) (on_proc (set_errno ENOENT) st)
  end.

(** [getcwd(NULL, size)]: a null pointer when the name does not fit. *)
Definition sys_getcwd (size : Z) : M (option string) := fun st =>
  if Z.of_nat (String.length (cwd (proc st))) <? size
  then Ret (Some (cwd (proc st))) st
  else Ret None st.

Definition has_eq (s : string) : bool :=
  existsb (Ascii.eqb CString.EQ) (list_ascii_of_string s).

(** [setenv(name, value, 1)]. *)
Definition sys_setenv (name value : string) : M Z := fun st =>
  if String.eqb name "" || has_eq name
  then Ret (-1) (on_proc (set_errno EINVAL) st)
  else Ret 0 (on_proc (set_env (<[name := value]> (env (proc st)))) st).

(** *** Processes *)

(** What [execvp] finds: a program that runs and exits with a code, or a
    failure with an error number. *)
Inductive exec_result := Exits (code : Z) | ExecFails (e : Z).

(** Taking a child out of the table of terminated children. *)
Fixpoint reap_pid (p : Z) (l : list (Z * Z)) : option (Z * list (Z * Z)) :=
  match l with
  | [] => None
  | (q, ws) :: tl =>
      if q =? p then Some (ws, tl)
      else match reap_pid p tl with
           | Some (ws', tl') => Some (ws', (q, ws) :: tl')
           | None => None
           end
  end.

Section Evaluator.

(** The program image [execvp] starts for an argument vector, in the
    process that calls it. *)
Variable image : Proc -> list string -> exec_result.

(** Which of the outstanding children a [wait] for any child reports:
    an index into the table, reduced modulo its length. *)
Variable first_done : list (Z * Z) -> nat.

Definition reap_any (l : list (Z * Z)) : option (Z * list (Z * Z)) :=
  let i := (first_done l mod length l)%nat in
  match l !! i with
  | Some (_, ws) => Some (ws, delete i l)
  | None => None
  end.

(** [waitpid(p, &wstatus, 0)]: the status stored, if any. All children
    stay in the process group of their parent. *)
Definition sys_waitpid (p : Z) : M (option Z) := fun st =>
  let l := children (proc st) in
  let r :=
    if 0 <? p then reap_pid p l
    else if (p =? -1) || (p =? 0) then reap_any l
    else if pgid (proc st) =? - p then reap_any l
    else None in
  match r with
  | Some (ws, l') => Ret (Some ws) (on_proc (set_children l') st)
  | None => Ret None (on_proc (set_errno ECHILD) st)
  end.

(** [wait(&wstatus)] is [waitpid(-1, &wstatus, 0)]. *)
Definition sys_wait : M (option Z) := sys_waitpid (-1).

(** [fork]: the child runs [child] on a copy of the process, with no
    children of its own, and ends with [exit(ret)] if [child] returns
    [ret]; the parent gets the process id and finds the child among its
    terminated children. The child runs to its end before the parent
    goes on. *)
Definition child_state (st : State) : State :=
  let p := next_pid (world st) in
  mk_state (mk_proc p (pgid (proc st)) (fds (proc st)) (cwd (proc st))
              (env (proc st)) [] (errno (proc st)))
    (mk_world (files (world st)) (p + 1) (next_pipe (world st))
       (log (world st))).

(** How a child ends: its wait status and the world it leaves. *)
Definition child_end (o : Outcome Z) : option (Z * World) :=
  match o with
  | Ret r st' => Some (wexit r, world st')
  | Term ws w => Some (ws, w)
  | Undef => None
  end.

Definition fork_child (child : M Z) : M Z := fun st =>
  let p := next_pid (world st) in
  match child_end (child (child_state st)) with
  | Some (ws, w) =>
      Ret p (mk_state
               (set_children (children (proc st) ++ [(p, ws)]) (proc st)) w)
  | None => Undef
  end.

(** [execvp(args[0], args)] and what follows it in the child. *)
Definition sys_execvp (args : list string) : M Z := fun st =>
  match image (proc st) args with
  | Exits code =>
      Term (wexit code)
        (log_event (EvExec (pid (proc st)) args
                      (fds (proc st) !! STDIN_FILENO)
                      (fds (proc st) !! STDOUT_FILENO)
                      (fds (proc st) !! STDERR_FILENO)) (world st))
  | ExecFails e =>
      (let* _ := (if e =? ENOENT
                  then sys_write STDERR_FILENO
                         ("Execution failed for '" ++ hd "" args ++ "'"
                            ++ newline)
                  else ret tt) in
       exit_ EXIT_FAILURE) (on_proc (set_errno e) st)
  end.

(** ** [redirect] and [restore_fd] *)

Definition redirect (old_fd : Z) (redirect_file : option string) (flag : Z)
  : M unit :=
  let* new_fd :=
    (if flag =? O_WRONLY
     then sys_open redirect_file (Z.lor O_TRUNC O_WRONLY) 0
     else if flag =? O_APPEND
     then sys_open redirect_file (Z.lor O_APPEND O_WRONLY) 0
     else if flag =? O_RDONLY
     then sys_open redirect_file flag 0
     else undef) in
  let* new_fd :=
    (if new_fd <? 0
     then
       let* n := sys_open redirect_file
                   (Z.lor O_CREAT (Z.lor O_TRUNC O_WRONLY)) 420 in
       let* _ := DIE (n <? 0) "open" in
       ret n
     else ret new_fd) in
  let* rc := sys_dup2 new_fd old_fd in
  let* _ := DIE (rc <? 0) "dup2" in
  let* rc := sys_close new_fd in
  DIE (rc <? 0) "close".

Definition restore_fd (fd fd_copy : Z) : M unit :=
  let* rc := sys_dup2 fd_copy fd in
  let* _ := DIE (rc <? 0) "dup2" in
  let* rc := sys_close fd_copy in
  DIE (rc <? 0) "close".

(** ** [shell_cd] *)

(** The result of [chdir] converted to [bool]: 0 stays 0, anything else
    becomes 1. *)
Definition shell_cd (dir : word) : M Z :=
  let* rc := sys_chdir (w_string dir) in
  ret (if rc =? 0 then 0 else 1).

(** ** [parse_simple] *)

Definition non_null {A} (p : option A) : bool :=
  match p with Some _ => true | None => false end.

(** The [switch (s->io_flags)]. *)
Definition apply_io_flags (s : simple_command)
    (file_out file_err : option string) : M unit :=
  let fl := io_flags s in
  if fl =? 3 then
    let* _ := redirect STDOUT_FILENO file_out O_APPEND in
    redirect STDERR_FILENO file_err O_APPEND
  else if fl =? 2 then
    let* _ := (if non_null (s_out s)
               then redirect STDOUT_FILENO file_out O_WRONLY else ret tt) in
    redirect STDERR_FILENO file_err O_APPEND
  else if fl =? 1 then
    let* _ := (if non_null (s_err s)
               then redirect STDERR_FILENO file_err O_WRONLY else ret tt) in
    redirect STDOUT_FILENO file_out O_APPEND
  else if fl =? 0 then
    if non_null (s_out s) || non_null (s_err s) then
      if non_null (s_out s) && non_null (s_err s)
         && bool_decide (file_out = file_err)
      then
        let* _ := redirect STDOUT_FILENO file_out O_WRONLY in
        let* _ := redirect STDOUT_FILENO file_out O_APPEND in
        redirect STDERR_FILENO file_err O_APPEND
      else
        let* _ := (if non_null (s_out s)
                   then redirect STDOUT_FILENO file_out O_WRONLY
                   else ret tt) in
        if non_null (s_err s)
        then redirect STDERR_FILENO file_err O_WRONLY else ret tt
    else ret tt
  else ret tt.

(** The test made by the parent after [fork]: the node above the leaf
    is a pipe and the leaf is that pipe's [cmd2]. Reading [scmd] through
    a null [cmd2] faults. *)
Definition is_pipe_cmd2 (up : uplink) : M bool :=
  match up with
  | Up OP_PIPE IsSelf => ret true
  | Up OP_PIPE IsNull => segfault
  | _ => ret false
  end.

(** The verb is followed by a part that is the string "=". *)
Definition is_assignment (s : simple_command) : bool :=
  match next_parts (verb s) with
  | p :: _ => String.eqb "=" p
  | [] => false
  end.

(** The external command: what the child does after [fork] ... *)
Definition external_child (s : simple_command) (file_in : option string)
    (args : list string) : M Z :=
  let* _ := (if non_null (s_in s)
             then redirect STDIN_FILENO file_in O_RDONLY
             else ret tt) in
  sys_execvp args.

(** ... and the [fork] with what the parent does after it. *)
Definition run_external (s : simple_command) (up : uplink)
    (file_in : option string) (args : list string) : M Z :=
  let* pid := fork_child (external_child s file_in args) in
  let* second := is_pipe_cmd2 up in
  if second then ret pid
  else
    let* ws := sys_wait in
    match ws with
    | Some wstatus => ret (WEXITSTATUS wstatus)
    | None => undef
    end.

(** The verb [arg0] of the leaf is none of the built-ins and the leaf is
    not an assignment: the tests that precede [fork] all fail. *)
Definition runs_external (s : simple_command) (arg0 : string) : bool :=
  negb (String.eqb "exit" arg0) && negb (String.eqb "quit" arg0)
  && negb (String.eqb "cd" arg0) && negb (String.eqb "pwd" arg0)
  && negb (is_assignment s).

(** The body of [parse_simple] between the resolution of the words and
    the label [exit_func]; its value is [ret]. *)
Definition simple_body (s : simple_command) (up : uplink)
    (file_in file_out file_err : option string) (args : list string)
  : M Z :=
  let arg0 := hd "" args in
  if String.eqb "exit" arg0 || String.eqb "quit" arg0 then ret SHELL_EXIT
  else
    let* _ := apply_io_flags s file_out file_err in
    if String.eqb "cd" arg0 then
      match params s with
      | [] => ret EXIT_SUCCESS
      | dir :: _ =>
          let* r := shell_cd dir in
          if r <? 0 then
            let* e := get_errno in
            let* _ := sys_write STDERR_FILENO (strerror e ++ newline) in
            ret EXIT_FAILURE
          else ret r
      end
    else if String.eqb "pwd" arg0 then
      let* d := sys_getcwd 200 in
      match d with
      | Some d =>
          let* _ := sys_write STDOUT_FILENO (d ++ newline) in
          ret EXIT_SUCCESS
      | None => undef
      end
    else if is_assignment s then
      match CString.split_strings arg0 with
      | Some (var, value) =>
          let* r := sys_setenv var value in
          if r <? 0 then
            let* e := get_errno in
            let* _ := sys_write STDERR_FILENO (strerror e ++ newline) in
            ret EXIT_FAILURE
          else ret r
      | None => undef
      end
    else run_external s up file_in args.

Definition parse_simple (s : simple_command) (up : uplink) : M Z :=
  let* stdin_copy := sys_dup STDIN_FILENO in
  let* stdout_copy := sys_dup STDOUT_FILENO in
  let* stderr_copy := sys_dup STDERR_FILENO in
  let file_in := get_word (s_in s) in
  let file_out := get_word (s_out s) in
  let file_err := get_word (s_err s) in
  let args := get_argv s in
  let* r := simple_body s up file_in file_out file_err args in
  let* _ := restore_fd STDIN_FILENO stdin_copy in
  let* _ := restore_fd STDOUT_FILENO stdout_copy in
  let* _ := restore_fd STDERR_FILENO stderr_copy in
  ret r.

(** ** [parse_command] *)

(** The saved descriptors and the process id of the left side. *)
Record pipe_frame := mk_frame {
  fdin_copy : Z; fdout_copy : Z; fderr_copy : Z; pid_first : Z
}.

(** What the child forked by [case OP_PIPE] does; [eval_cmd1] is the
    recursive call on [cmd1]. *)
Definition pipe_child (eval_cmd1 : M Z) (rd wr : Z)
    (fdin_copy fdout_copy fderr_copy : Z) : M Z :=
  let* rc := sys_dup2 wr STDOUT_FILENO in
  let* _ := DIE (rc <? 0) "dup2" in
  let* rc := sys_close rd in
  let* _ := DIE (rc <? 0) "close" in
  let* rc := sys_close wr in
  let* _ := DIE (rc <? 0) "close" in
  let* r := eval_cmd1 in
  let* _ := restore_fd STDIN_FILENO fdin_copy in
  let* _ := restore_fd STDOUT_FILENO fdout_copy in
  let* _ := restore_fd STDERR_FILENO fderr_copy in
  ret r.

(** [case OP_PIPE] up to the recursive call on [cmd2] ... *)
Definition pipe_prefix (eval_cmd1 : M Z) : M pipe_frame :=
  let* fdin_copy := sys_dup STDIN_FILENO in
  let* fdout_copy := sys_dup STDOUT_FILENO in
  let* fderr_copy := sys_dup STDERR_FILENO in
  let* pipe_fd := sys_pipe in
  let rd := fst pipe_fd in
  let wr := snd pipe_fd in
  let* pid_first :=
    fork_child (pipe_child eval_cmd1 rd wr fdin_copy fdout_copy fderr_copy) in
  let* rc := sys_dup2 rd STDIN_FILENO in
  let* _ := DIE (rc <? 0) "dup2" in
  let* rc := sys_close rd in
  let* _ := DIE (rc <? 0) "close" in
  let* rc := sys_close wr in
  let* _ := DIE (rc <? 0) "close" in
  ret (mk_frame fdin_copy fdout_copy fderr_copy pid_first).

(** ... and after it. *)
Definition pipe_suffix (x : pipe_frame) (pid_second : Z) : M Z :=
  let* _ := sys_waitpid (pid_first x) in
  let* second_wstatus := sys_waitpid pid_second in
  let* _ := restore_fd STDIN_FILENO (fdin_copy x) in
  let* _ := restore_fd STDOUT_FILENO (fdout_copy x) in
  let* _ := restore_fd STDERR_FILENO (fderr_copy x) in
  match second_wstatus with
  | Some wstatus => ret (WEXITSTATUS wstatus)
  | None => undef
  end.

(** In [case OP_CONDITIONAL_NZERO] and [case OP_CONDITIONAL_ZERO], [ret]
    is read uninitialised when [cmd1] is null. *)
Fixpoint parse_command (c : command) (up : uplink) {struct c} : M Z :=
  match c with
  | Null => segfault
  | Scmd s => parse_simple s up
  | Dummy => ret EXIT_SUCCESS
  | Node op cmd1 cmd2 =>
      let up1 := up_of_cmd1 op cmd2 in
      let up2 := up_of_cmd2 op in
      match op with
      | OP_SEQUENTIAL =>
          if is_null cmd1 then parse_command cmd2 up2
          else
            let* r := parse_command cmd1 up1 in
            if r =? SHELL_EXIT then ret SHELL_EXIT
            else parse_command cmd2 up2
      | OP_PARALLEL =>
          let* pid_first := fork_child (parse_command cmd1 up1) in
          let* pid_second := fork_child (parse_command cmd2 up2) in
          let* _ := sys_waitpid pid_first in
          let* _ := sys_waitpid pid_second in
          ret EXIT_SUCCESS
      | OP_CONDITIONAL_NZERO =>
          let* r := (if is_null cmd1 then undef
                     else parse_command cmd1 up1) in
          if r =? EXIT_FAILURE then parse_command cmd2 up2
          else ret EXIT_SUCCESS
      | OP_CONDITIONAL_ZERO =>
          let* r := (if is_null cmd1 then undef
                     else parse_command cmd1 up1) in
          if r =? EXIT_SUCCESS then parse_command cmd2 up2
          else ret EXIT_FAILURE
      | OP_PIPE =>
          let* x := pipe_prefix (parse_command cmd1 up1) in
          let* pid_second := parse_command cmd2 up2 in
          pipe_suffix x pid_second
      end
  end.

End Evaluator.

(** * The vocabulary of the properties *)

(** The result, the log of events and the final state of a call. *)
Definition result_of {A} (o : Outcome A) : option A :=
  match o with Ret a _ => Some a | _ => None end.

Definition log_of {A} (o : Outcome A) : list Event :=
  match o with
  | Ret _ st => log (world st)
  | Term _ w => log w
  | Undef => []
  end.

Definition state_of {A} (o : Outcome A) : option State :=
  match o with Ret _ st => Some st | _ => None end.

(** A call respects a relation [R] between the state before and the state
    after it, and a relation [T] between the state before and the world
    left when the process terminates in it. *)
Definition respects (R : State -> State -> Prop) (T : State -> World -> Prop)
    {A} (m : M A) : Prop :=
  forall st,
    match m st with
    | Ret _ st' => R st st'
    | Term _ w => T st w
    | Undef => True
    end.

(** The descriptor table is left as it is. *)
Definition same_fds (st st' : State) : Prop :=
  fds (proc st') = fds (proc st).
Definition any_world (st : State) (w : World) : Prop := True.
Definition keeps_fds {A} (m : M A) : Prop := respects same_fds any_world m.

(** Only stdout and stderr are rebound, and they stay open. *)
Definition open12 (t : gmap Z Target) : Prop :=
  is_Some (t !! STDOUT_FILENO) /\ is_Some (t !! STDERR_FILENO).

Definition out_err_only (st st' : State) : Prop :=
  open12 (fds (proc st)) ->
  (forall k, k <> STDOUT_FILENO -> k <> STDERR_FILENO ->
             fds (proc st') !! k = fds (proc st) !! k)
  /\ open12 (fds (proc st')).

Definition rebinds_out_err {A} (m : M A) : Prop :=
  respects out_err_only any_world m.

(** The table after the three [dup] calls that save the standard streams
    of [t] in [c0], [c1] and [c2], and the table after the three
    [restore_fd] calls on a table [f]. *)
Definition saved_table (t : gmap Z Target) (x0 x1 x2 : Target)
    (c0 c1 c2 : Z) : gmap Z Target :=
  <[c2 := x2]> (<[c1 := x1]> (<[c0 := x0]> t)).

Definition restored_table (x0 x1 x2 : Target) (c0 c1 c2 : Z)
    (f : gmap Z Target) : gmap Z Target :=
  delete c2 (<[STDERR_FILENO := x2]>
    (delete c1 (<[STDOUT_FILENO := x1]>
      (delete c0 (<[STDIN_FILENO := x0]> f))))).

(** The process, its children and the process ids handed out are left as
    they are. *)
Definition same_family (st st' : State) : Prop :=
  pid (proc st') = pid (proc st)
  /\ children (proc st') = children (proc st)
  /\ next_pid (world st') = next_pid (world st).
Definition keeps_family {A} (m : M A) : Prop :=
  respects same_family any_world m.

(** With the standard streams open, the table is left as it is. *)
Definition std_kept (st st' : State) : Prop :=
  std_open (fds (proc st)) -> fds (proc st') = fds (proc st).
Definition keeps_table {A} (m : M A) : Prop := respects std_kept any_world m.

(** The process ids not yet handed out are positive and above those of
    the children in the table; they only grow. *)
Definition pids_below (st : State) : Prop :=
  0 < next_pid (world st)
  /\ Forall (fun c => fst c < next_pid (world st)) (children (proc st)).

Definition pid_le (st st' : State) : Prop :=
  next_pid (world st) <= next_pid (world st').
Definition pid_le_end (st : State) (w : World) : Prop :=
  next_pid (world st) <= next_pid w.
Definition grows {A} (m : M A) : Prop := respects pid_le pid_le_end m.

(** The flags [redirect] passes to its first [open] for an intent, and
    those of its second [open]. *)
Definition first_open_flags (flag : Z) : Z :=
  if flag =? O_WRONLY then Z.lor O_TRUNC O_WRONLY
  else if flag =? O_APPEND then Z.lor O_APPEND O_WRONLY
  else flag.
Definition create_flags : Z := Z.lor O_CREAT (Z.lor O_TRUNC O_WRONLY).

(** The three intents [redirect] is called with. *)
Definition is_intent (flag : Z) : Prop :=
  flag = O_WRONLY \/ flag = O_APPEND \/ flag = O_RDONLY.

(** A path that no [open] for writing accepts, with or without
    [O_CREAT]: a null or empty path, a directory, a file without write
    permission. *)
Definition unwritable (w : World) (path : option string) : Prop :=
  match path with
  | None => True
  | Some f =>
      f = ""
      \/ files w !! f = Some Dir
      \/ exists r, files w !! f = Some (Reg r false)
  end.

(** The leaf carries no redirection of its output or error stream. *)
Definition plain (s : simple_command) : Prop :=
  s_out s = None /\ s_err s = None /\ io_flags s = 0.

(** The working directory and the environment are left as they are. *)
Definition same_place (st st' : State) : Prop :=
  cwd (proc st') = cwd (proc st) /\ env (proc st') = env (proc st).

(** * A concrete system *)

Module Scenario.

(** Four programs on the path; anything else is not found. The files:
    two directories, a file that can only be read and a file that can
    only be written. *)
Definition image (p : Proc) (argv : list string) : exec_result :=
  match argv with
  | "true" :: _ => Exits 0
  | "false" :: _ => Exits 1
  | "two" :: _ => Exits 2
  | "seven" :: _ => Exits 7
  | _ => ExecFails ENOENT
  end.

(** A [wait] for any child reports the oldest one. *)
Definition oldest (l : list (Z * Z)) : nat := 0%nat.

Definition world0 : World :=
  mk_world {[ "/" := Dir; "/tmp" := Dir; "/etc/motd" := Reg true false;
              "locked" := Reg false true ]}
    100 0 [].

Definition proc0 : Proc :=
  mk_proc 1 1 {[ 0 := Tty 0; 1 := Tty 1; 2 := Tty 2 ]} "/" ∅ [] 0.

Definition st0 : State := mk_state proc0 world0.


Definition simple (v : string) (args : list string) : simple_command :=
  mk_simple (mk_word v []) (map (fun a => mk_word a []) args)
    None None None 0.

Definition run (c : command) : Outcome Z :=
  parse_command image oldest c Root st0.

Definition cmd_exit : command := Scmd (simple "exit" []).
Definition cmd_pwd : command := Scmd (simple "pwd" []).
Definition cmd_two : command := Scmd (simple "two" []).
Definition cmd_seven : command := Scmd (simple "seven" []).
Definition cmd_cd_missing : command := Scmd (simple "cd" ["/nonexistent"]).
Definition pwd_to_file : simple_command :=
  mk_simple (mk_word "pwd" []) [] None (Some (mk_word "out.txt" [])) None 0.

End Scenario.

(** Further leaves and states on the same system. *)
Module ScenarioMore.
Import Scenario.

(** The shell in the middle of a leaf whose output is redirected: the
    terminal it had as stdout is kept in descriptor 3. *)
Definition st_copy : State :=
  mk_state
    (set_fds {[ 0 := Tty 0; 1 := File "locked" O_WRONLY; 2 := Tty 2;
                3 := Tty 1 ]} proc0)
    world0.

(** The shell started with its standard input closed. *)
Definition st_noin : State :=
  mk_state (set_fds {[ 1 := Tty 1; 2 := Tty 2 ]} proc0) world0.

Definition leaf (v : string) (win wout werr : option string)
    : simple_command :=
  mk_simple (mk_word v []) []
    (option_map (fun f => mk_word f []) win)
    (option_map (fun f => mk_word f []) wout)
    (option_map (fun f => mk_word f []) werr) 0.

Definition assign (name value : string) : simple_command :=
  mk_simple (mk_word name ["="; value]) [] None None None 0.

End ScenarioMore.

(** * Properties *)

(** ** [split_env_command] *)

Module CStringFacts.
Import CString.
Local Open Scope list_scope.

Lemma upto_nul_app (pre post : list ascii) :
  ~ In NUL pre -> upto_nul (pre ++ NUL :: post) = pre.
Proof.
  induction pre as [|c pre IH]; simpl; intros Hnot.
  - reflexivity.
  - destruct (Ascii.eqb c NUL) eqn:E.
    + apply Ascii.eqb_eq in E. exfalso. apply Hnot. now left.
    + f_equal. apply IH. intros Hin. apply Hnot. now right.
Qed.

(** The scan stops on the first '=' of the buffer, whatever follows. *)
Lemma scan_first_eq (l rest : list ascii) (p : nat) :
  In EQ l ->
  exists pre post,
    l = pre ++ EQ :: post /\ ~ In EQ pre /\
    scan (l ++ rest) p = Some (p + length pre)%nat.
Proof.
  revert p. induction l as [|c l IH]; intros p Hin; [destruct Hin|].
  simpl. destruct (Ascii.eqb c EQ) eqn:E.
  - apply Ascii.eqb_eq in E. subst c.
    exists [], l. simpl.
    split; [reflexivity | split; [tauto | f_equal; lia]].
  - assert (Hl : In EQ l).
    { destruct Hin as [->|]; [|assumption].
      rewrite Ascii.eqb_refl in E. discriminate. }
    destruct (IH (S p) Hl) as (pre & post & -> & Hpre & Hscan).
    exists (c :: pre), post. simpl.
    split; [reflexivity | split].
    + intros [->|H]; [|contradiction].
      rewrite Ascii.eqb_refl in E. discriminate.
    + rewrite Hscan. f_equal. lia.
Qed.

Lemma length_list_ascii (s : string) :
  length (list_ascii_of_string s) = String.length s.
Proof. induction s; simpl; congruence. Qed.

Lemma string_of_app (a b : list ascii) :
  string_of_list_ascii (a ++ b)
  = (string_of_list_ascii a ++ string_of_list_ascii b)%string.
Proof.
  induction a as [|c a IH]; [reflexivity|].
  cbn [app string_of_list_ascii String.append]. now rewrite IH.
Qed.

Lemma insert_middle (pre post : list ascii) (c x : ascii) :
  <[length pre := x]> (pre ++ c :: post) = pre ++ x :: post.
Proof.
  replace (length pre) with (length pre + 0)%nat by lia.
  now rewrite insert_app_r.
Qed.

Lemma drop_middle (pre post : list ascii) (x : ascii) :
  drop (S (length pre)) (pre ++ x :: post) = post.
Proof. induction pre; simpl; auto. Qed.

Lemma list_ascii_app (a b : string) :
  list_ascii_of_string (a ++ b)%string
  = list_ascii_of_string a ++ list_ascii_of_string b.
Proof.
  induction a as [|c a IH]; [reflexivity|].
  cbn [list_ascii_of_string app]. rewrite <- IH. reflexivity.
Qed.

(** The test that guards the call in [parse_simple] gives the
    precondition: the first argument holds a '='. *)
Lemma assignment_has_eq (s : simple_command) :
  is_assignment s = true ->
  In EQ (list_ascii_of_string (hd ""%string (get_argv s))).
Proof.
  unfold is_assignment, get_argv, word_string. cbn [hd].
  destruct (next_parts (verb s)) as [|p rest]; [discriminate|].
  intros Hp. apply String.eqb_eq in Hp. subst p.
  rewrite list_ascii_app. apply in_or_app. right.
  destruct rest; cbn; now left.
Qed.

(** C10: under the precondition that the argument holds a '=', the
    scan of [split_env_command] never reads outside the string: it
    stops at an offset [p] below the length of the string, which is the
    offset of the first '='; the name is what precedes it and the value
    what follows it. *)
Theorem split_env_command_in_bounds (s : string) :
  In EQ (list_ascii_of_string s) ->
  ~ In NUL (list_ascii_of_string s) ->
  exists p name value,
    scan (buffer_of s) 0 = Some p /\
    (p < String.length s)%nat /\
    split_strings s = Some (name, value) /\
    s = (name ++ "=" ++ value)%string /\
    ~ In EQ (list_ascii_of_string name) /\
    String.length name = p.
Proof.
  intros Heq Hnul.
  destruct (scan_first_eq (list_ascii_of_string s) [NUL] 0 Heq)
    as (pre & post & Hl & Hpre & Hscan).
  simpl in Hscan.
  assert (Hnul_pre : ~ In NUL pre).
  { intros H. apply Hnul. rewrite Hl. apply in_or_app. now left. }
  assert (Hnul_post : ~ In NUL post).
  { intros H. apply Hnul. rewrite Hl. apply in_or_app. right. now right. }
  exists (length pre), (string_of_list_ascii pre), (string_of_list_ascii post).
  split; [exact Hscan|]. split.
  { rewrite <- length_list_ascii, Hl, length_app. simpl. lia. }
  split.
  { unfold split_strings, split_env_command, buffer_of in *.
    rewrite Hscan. unfold string_at. rewrite Hl, <- app_assoc.
    cbn [app]. rewrite insert_middle.
    rewrite drop_middle, drop_0.
    now rewrite !upto_nul_app by assumption. }
  split.
  { rewrite <- (string_of_list_ascii_of_string s), Hl, string_of_app.
    reflexivity. }
  split.
  { now rewrite list_ascii_of_string_of_list_ascii. }
  rewrite <- length_list_ascii.
  now rewrite list_ascii_of_string_of_list_ascii.
Qed.

(** The witness of C10: the assignment [VAR=va=lue]. *)
Lemma split_env_command_in_bounds_witness :
  exists p name value,
    scan (buffer_of "VAR=va=lue") 0 = Some p /\
    (p < String.length "VAR=va=lue")%nat /\
    split_strings "VAR=va=lue" = Some (name, value) /\
    "VAR=va=lue" = (name ++ "=" ++ value)%string /\
    ~ In EQ (list_ascii_of_string name) /\
    String.length name = p.
Proof.
  apply (split_env_command_in_bounds "VAR=va=lue").
  - simpl. right. right. right. left. reflexivity.
  - simpl. intros H.
    repeat (destruct H as [H|H]; [discriminate H|]). exact H.
Defined.

End CStringFacts.

(** ** The descriptor table *)

Section Descriptors.

Implicit Types t : gmap Z Target.

(** Among [size t + 1] distinct numbers one is not open. *)
Lemma candidates_not_all_open t :
  ~ (forall n, In n (map Z.of_nat (seq 0 (S (size t)))) -> is_Some (t !! n)).
Proof.
  intros Hall.
  set (l := map Z.of_nat (seq 0 (S (size t)))) in *.
  assert (Hnd : NoDup l).
  { apply NoDup_fmap_2; [apply Nat2Z.inj'|apply NoDup_seq]. }
  assert (Hsub : l ⊆+ elements (dom t)).
  { apply NoDup_submseteq; [exact Hnd|].
    intros x Hx. apply elem_of_elements, elem_of_dom, Hall.
    now apply list_elem_of_In. }
  apply submseteq_length in Hsub.
  assert (Hlen : length l = S (size t)).
  { unfold l. now rewrite length_map, length_seq. }
  assert (Hsz : length (elements (dom t)) = size t).
  { rewrite <- size_dom. reflexivity. }
  lia.
Qed.

Lemma lowest_free_fresh t : t !! lowest_free t = None.
Proof.
  unfold lowest_free.
  destruct (List.find _ _) as [n|] eqn:E; simpl.
  - apply List.find_some in E as [_ E].
    now apply bool_decide_eq_true in E.
  - exfalso. apply (candidates_not_all_open t). intros n Hn.
    pose proof (List.find_none _ _ E n Hn) as Hf. simpl in Hf.
    apply bool_decide_eq_false in Hf.
    destruct (t !! n); [eauto|congruence].
Qed.

Lemma lowest_free_not_open t fd : is_Some (t !! fd) -> lowest_free t <> fd.
Proof.
  intros [x Hx] E. subst fd. rewrite lowest_free_fresh in Hx. discriminate.
Qed.

End Descriptors.

(** ** Relations kept by the evaluator

    A relation [R] between the state before and the state after a call,
    and a relation [T] between the state before and the world left by a
    process that terminates, are kept through sequencing when [R] is a
    preorder and [T] absorbs [R] on the left. *)

Section Respects.

Variable R : State -> State -> Prop.
Variable T : State -> World -> Prop.
Hypothesis R_refl : forall st, R st st.
Hypothesis R_trans : forall a b c, R a b -> R b c -> R a c.
Hypothesis T_trans : forall a b w, R a b -> T b w -> T a w.

Lemma respects_ret {A} (a : A) : respects R T (ret a).
Proof. intros st. apply R_refl. Qed.

Lemma respects_undef {A} : respects R T (@undef A).
Proof. intros st. exact I. Qed.

Lemma respects_bind {A B} (m : M A) (f : A -> M B) :
  respects R T m -> (forall a, respects R T (f a)) ->
  respects R T (bind m f).
Proof.
  intros Hm Hf st. unfold bind. specialize (Hm st).
  destruct (m st) as [a st1| |]; auto.
  specialize (Hf a st1). destruct (f a st1); eauto.
Qed.

Lemma respects_if {A} (b : bool) (m1 m2 : M A) :
  respects R T m1 -> respects R T m2 ->
  respects R T (if b then m1 else m2).
Proof. destruct b; auto. Qed.

End Respects.

Lemma bind_Ret {A B} (m : M A) (f : A -> M B) st b st' :
  bind m f st = Ret b st' ->
  exists a st1, m st = Ret a st1 /\ f a st1 = Ret b st'.
Proof.
  unfold bind. destruct (m st) as [a st1| |]; try discriminate. eauto.
Qed.

Lemma bind_eq {A B} (m : M A) (f : A -> M B) st a st1 :
  m st = Ret a st1 -> bind m f st = f a st1.
Proof. unfold bind. now intros ->. Qed.

(** ** Calls that leave the descriptor table alone *)

Section KeepsFds.

Variable image : Proc -> list string -> exec_result.
Variable first_done : list (Z * Z) -> nat.

Lemma keeps_ret {A} (a : A) : keeps_fds (ret a).
Proof. now apply respects_ret. Qed.

Lemma keeps_undef {A} : keeps_fds (@undef A).
Proof. apply respects_undef. Qed.

Lemma keeps_bind {A B} (m : M A) (f : A -> M B) :
  keeps_fds m -> (forall a, keeps_fds (f a)) -> keeps_fds (bind m f).
Proof.
  apply respects_bind; unfold same_fds, any_world; auto; congruence.
Qed.

Lemma keeps_if {A} (b : bool) (m1 m2 : M A) :
  keeps_fds m1 -> keeps_fds m2 -> keeps_fds (if b then m1 else m2).
Proof. apply respects_if. Qed.

Lemma keeps_segfault {A} : keeps_fds (@segfault A).
Proof. intros st. exact I. Qed.

Lemma keeps_exit {A} code : keeps_fds (@exit_ A code).
Proof. intros st. exact I. Qed.

Lemma keeps_DIE b call : keeps_fds (DIE b call).
Proof. intros st. unfold DIE. destruct b; [exact I|reflexivity]. Qed.

Lemma keeps_write fd s : keeps_fds (sys_write fd s).
Proof. intros st. unfold sys_write. now destruct (_ !! fd). Qed.

Lemma keeps_get_errno : keeps_fds get_errno.
Proof. intros st. reflexivity. Qed.

Lemma keeps_chdir path : keeps_fds (sys_chdir path).
Proof.
  intros st. unfold sys_chdir.
  destruct (_ !! path) as [[|]|]; reflexivity.
Qed.

Lemma keeps_shell_cd dir : keeps_fds (shell_cd dir).
Proof.
  unfold shell_cd. apply keeps_bind; [apply keeps_chdir|].
  intros rc. apply keeps_ret.
Qed.

Lemma keeps_getcwd size : keeps_fds (sys_getcwd size).
Proof. intros st. unfold sys_getcwd. now destruct (_ <? _). Qed.

Lemma keeps_setenv name value : keeps_fds (sys_setenv name value).
Proof. intros st. unfold sys_setenv. now destruct (_ || _). Qed.

Lemma keeps_waitpid p : keeps_fds (sys_waitpid first_done p).
Proof.
  intros st. unfold sys_waitpid. cbv zeta.
  match goal with
  | |- context [match ?o with Some _ => _ | None => _ end] =>
      destruct o as [[? ?]|]
  end; reflexivity.
Qed.

Lemma keeps_wait : keeps_fds (sys_wait first_done).
Proof. apply keeps_waitpid. Qed.

Lemma keeps_fork child : keeps_fds (fork_child child).
Proof.
  intros st. unfold fork_child.
  destruct (child_end _) as [[ws w]|]; [reflexivity|exact I].
Qed.

Lemma keeps_is_pipe_cmd2 up : keeps_fds (is_pipe_cmd2 up).
Proof.
  destruct up as [|[] []]; simpl;
    first [apply keeps_ret | apply keeps_segfault].
Qed.

Lemma keeps_run_external s up file_in args :
  keeps_fds (run_external image first_done s up file_in args).
Proof.
  unfold run_external.
  apply keeps_bind; [apply keeps_fork|intros p].
  apply keeps_bind; [apply keeps_is_pipe_cmd2|intros second].
  apply keeps_if; [apply keeps_ret|].
  apply keeps_bind; [apply keeps_wait|intros [ws|]].
  - apply keeps_ret.
  - apply keeps_undef.
Qed.

End KeepsFds.

(** ** Descriptor calls: equations and inversions *)

Section DescriptorCalls.

Implicit Types st : State.

Lemma lowest_free_nonneg (t : gmap Z Target) : 0 <= lowest_free t.
Proof.
  unfold lowest_free.
  destruct (List.find _ _) as [n|] eqn:E; simpl; [|lia].
  apply List.find_some in E as [E _].
  apply in_map_iff in E as (k & <- & _). lia.
Qed.

Lemma sys_dup_open st fd x :
  fds (proc st) !! fd = Some x ->
  sys_dup fd st
  = Ret (lowest_free (fds (proc st)))
      (on_proc (set_fds (<[lowest_free (fds (proc st)) := x]>
                           (fds (proc st)))) st).
Proof. unfold sys_dup. now intros ->. Qed.

Lemma sys_dup2_ok st fd fd2 x :
  fds (proc st) !! fd = Some x -> 0 <= fd2 ->
  sys_dup2 fd fd2 st
  = Ret fd2 (on_proc (set_fds (<[fd2 := x]> (fds (proc st)))) st).
Proof.
  unfold sys_dup2. intros -> H.
  destruct (fd2 <? 0) eqn:E; [lia|reflexivity].
Qed.

Lemma sys_close_ok st fd x :
  fds (proc st) !! fd = Some x ->
  sys_close fd st
  = Ret 0 (on_proc (set_fds (delete fd (fds (proc st)))) st).
Proof. unfold sys_close. now intros ->. Qed.

Lemma restore_fd_ok st fd c x :
  fds (proc st) !! c = Some x -> 0 <= fd ->
  restore_fd fd c st
  = Ret tt (on_proc (set_fds (delete c (<[fd := x]> (fds (proc st))))) st).
Proof.
  intros Hc Hfd. unfold restore_fd.
  rewrite (bind_eq _ _ _ _ _ (sys_dup2_ok st c fd x Hc Hfd)).
  destruct (fd <? 0) eqn:E; [lia|].
  unfold bind, DIE, sys_close. cbn.
  rewrite lookup_insert. case_decide; [reflexivity|].
  now rewrite Hc.
Qed.

Lemma sys_open_inv path flags mode st n st' :
  sys_open path flags mode st = Ret n st' ->
  (n = -1 /\ fds (proc st') = fds (proc st))
  \/ (n = lowest_free (fds (proc st))
      /\ exists x, fds (proc st') = <[n := x]> (fds (proc st))).
Proof.
  unfold sys_open. destruct (open_check _ _ _ _) as [e|w]; intros H;
    inversion H; subst; [left|right]; cbn; eauto.
Qed.

(** After the two [open] calls of [redirect], the descriptor it got is
    the lowest free one and refers to the file. *)
Lemma redirect_fds old file flag st u st' :
  redirect old file flag st = Ret u st' ->
  is_Some (fds (proc st) !! old) ->
  exists x, fds (proc st') = <[old := x]> (fds (proc st)).
Proof.
  unfold redirect. intros H Hold.
  apply bind_Ret in H as (n1 & st1 & H1 & H).
  apply bind_Ret in H as (n2 & st2 & H2 & H).
  assert (Hfirst : (n1 = -1 /\ fds (proc st1) = fds (proc st))
                   \/ (n1 = lowest_free (fds (proc st))
                       /\ exists x, fds (proc st1)
                                    = <[n1 := x]> (fds (proc st)))).
  { destruct (flag =? O_WRONLY); [now apply sys_open_inv in H1|].
    destruct (flag =? O_APPEND); [now apply sys_open_inv in H1|].
    destruct (flag =? O_RDONLY); [now apply sys_open_inv in H1|].
    discriminate H1. }
  assert (Hopen : n2 = lowest_free (fds (proc st))
                  /\ exists x, fds (proc st2) = <[n2 := x]> (fds (proc st))).
  { destruct Hfirst as [[-> Hsame]|[-> Hx]].
    - cbn in H2.
      apply bind_Ret in H2 as (n & st1' & Ho & H2).
      apply bind_Ret in H2 as ([] & st1'' & Hd & H2).
      inversion H2; subst; clear H2.
      apply sys_open_inv in Ho as [[-> _]|[-> Hx]].
      + discriminate Hd.
      + rewrite Hsame in *.
        pose proof (lowest_free_nonneg (fds (proc st))) as Hnn.
        unfold DIE in Hd.
        destruct (_ <? 0) eqn:E; [lia|]. inversion Hd; subst. auto.
    - pose proof (lowest_free_nonneg (fds (proc st))) as Hnn.
      destruct (_ <? 0) eqn:E; [lia|]. inversion H2; subst. auto. }
  destruct Hopen as [-> [x Hx]].
  set (n := lowest_free (fds (proc st))) in *.
  assert (Hn : fds (proc st) !! n = None) by apply lowest_free_fresh.
  assert (Hne : n <> old).
  { apply lowest_free_not_open, Hold. }
  clearbody n.
  apply bind_Ret in H as (rc & st3 & Hdup & H).
  apply bind_Ret in H as ([] & st4 & Hd1 & H).
  apply bind_Ret in H as (rc' & st5 & Hcl & H).
  unfold sys_dup2 in Hdup. rewrite Hx, lookup_insert_eq in Hdup.
  destruct (old <? 0) eqn:E.
  { inversion Hdup; subst. discriminate Hd1. }
  inversion Hdup; subst; clear Hdup. cbn in Hd1.
  rewrite E in Hd1. inversion Hd1; subst; clear Hd1.
  unfold sys_close in Hcl. cbn in Hcl.
  rewrite lookup_insert_ne, lookup_insert_eq in Hcl by congruence.
  inversion Hcl; subst; clear Hcl. cbn in H.
  inversion H; subst; clear H. cbn.
  exists x.
  rewrite delete_insert_ne by congruence.
  now rewrite delete_insert_id.
Qed.

End DescriptorCalls.

(** ** The body of [parse_simple] rebinds only stdout and stderr *)

Lemma respects_weaken {A} (R R' : State -> State -> Prop)
    (T T' : State -> World -> Prop) (m : M A) :
  (forall a b, R a b -> R' a b) -> (forall a w, T a w -> T' a w) ->
  respects R T m -> respects R' T' m.
Proof.
  intros HR HT Hm st. specialize (Hm st). destruct (m st); auto.
Qed.

Section OutErrOnly.

Variable image : Proc -> list string -> exec_result.
Variable first_done : list (Z * Z) -> nat.

Lemma out_err_only_refl st : out_err_only st st.
Proof. intros H. auto. Qed.

Lemma out_err_only_trans a b c :
  out_err_only a b -> out_err_only b c -> out_err_only a c.
Proof.
  intros Hab Hbc Ha. destruct (Hab Ha) as [Hk Hb].
  destruct (Hbc Hb) as [Hk' Hc]. split; [|exact Hc].
  intros k H1 H2. rewrite Hk', Hk; auto.
Qed.

Lemma rebinds_of_keeps {A} (m : M A) : keeps_fds m -> rebinds_out_err m.
Proof.
  apply respects_weaken; [|auto].
  unfold same_fds, out_err_only. intros a b -> H. auto.
Qed.

Lemma rebinds_ret {A} (a : A) : rebinds_out_err (ret a).
Proof. apply respects_ret, out_err_only_refl. Qed.

Lemma rebinds_bind {A B} (m : M A) (f : A -> M B) :
  rebinds_out_err m -> (forall a, rebinds_out_err (f a)) ->
  rebinds_out_err (bind m f).
Proof.
  apply respects_bind; [apply out_err_only_trans|].
  unfold any_world. auto.
Qed.

Lemma rebinds_if {A} (b : bool) (m1 m2 : M A) :
  rebinds_out_err m1 -> rebinds_out_err m2 ->
  rebinds_out_err (if b then m1 else m2).
Proof. apply respects_if. Qed.

Lemma rebinds_redirect old file flag :
  old = STDOUT_FILENO \/ old = STDERR_FILENO ->
  rebinds_out_err (redirect old file flag).
Proof.
  intros Hold st.
  destruct (redirect old file flag st) as [u st'| |] eqn:E; try exact I.
  intros [H1 H2].
  assert (Hopen : is_Some (fds (proc st) !! old)).
  { destruct Hold as [->| ->]; assumption. }
  destruct (redirect_fds _ _ _ _ _ _ E Hopen) as [x Hx].
  rewrite Hx. split.
  - intros k Hk1 Hk2. apply lookup_insert_ne.
    destruct Hold as [->| ->]; congruence.
  - split; apply lookup_insert_is_Some';
      destruct Hold as [->| ->]; auto.
Qed.

Ltac rebinds :=
  repeat first
    [ apply rebinds_ret
    | apply rebinds_redirect; auto
    | apply rebinds_if
    | apply rebinds_of_keeps;
      first [ apply keeps_write | apply keeps_get_errno
            | apply keeps_shell_cd | apply keeps_getcwd
            | apply keeps_setenv | apply keeps_run_external
            | apply keeps_undef ]
    | apply rebinds_bind; [|intros ?] ].

Lemma rebinds_apply_io_flags s file_out file_err :
  rebinds_out_err (apply_io_flags s file_out file_err).
Proof. unfold apply_io_flags. cbv zeta. rebinds. Qed.

Lemma rebinds_simple_body s up file_in file_out file_err args :
  rebinds_out_err
    (simple_body image first_done s up file_in file_out file_err args).
Proof.
  unfold simple_body. cbv zeta.
  apply rebinds_if; [apply rebinds_ret|].
  apply rebinds_bind; [apply rebinds_apply_io_flags|intros _].
  apply rebinds_if.
  { destruct (params s); rebinds. }
  apply rebinds_if.
  { apply rebinds_bind; [rebinds|]. intros [d|]; rebinds. }
  apply rebinds_if; [|rebinds].
  destruct (CString.split_strings _) as [[var value]|]; rebinds.
Qed.

End OutErrOnly.

(** ** Saving and restoring the standard streams *)

Section SaveRestore.

Context (t : gmap Z Target) (x0 x1 x2 : Target) (c0 c1 c2 : Z).
Hypothesis H0 : t !! STDIN_FILENO = Some x0.
Hypothesis H1 : t !! STDOUT_FILENO = Some x1.
Hypothesis H2 : t !! STDERR_FILENO = Some x2.
Hypothesis F0 : t !! c0 = None.
Hypothesis F1 : <[c0 := x0]> t !! c1 = None.
Hypothesis F2 : <[c1 := x1]> (<[c0 := x0]> t) !! c2 = None.

Lemma copies_apart :
  (c0 <> 0 /\ c0 <> 1 /\ c0 <> 2) /\ (c1 <> 0 /\ c1 <> 1 /\ c1 <> 2)
  /\ (c2 <> 0 /\ c2 <> 1 /\ c2 <> 2)
  /\ c0 <> c1 /\ c0 <> c2 /\ c1 <> c2
  /\ t !! c1 = None /\ t !! c2 = None.
Proof.
  unfold STDIN_FILENO, STDOUT_FILENO, STDERR_FILENO in *.
  apply lookup_insert_None in F1 as [F1' N01].
  apply lookup_insert_None in F2 as [F2' N12].
  apply lookup_insert_None in F2' as [F2' N02].
  repeat split; try congruence; intros ->; congruence.
Qed.

Lemma saved_table_std :
  (saved_table t x0 x1 x2 c0 c1 c2) !! STDIN_FILENO = Some x0
  /\ (saved_table t x0 x1 x2 c0 c1 c2) !! STDOUT_FILENO = Some x1
  /\ (saved_table t x0 x1 x2 c0 c1 c2) !! STDERR_FILENO = Some x2.
Proof.
  destruct copies_apart as ((?&?&?)&(?&?&?)&(?&?&?)&_).
  unfold saved_table, STDIN_FILENO, STDOUT_FILENO, STDERR_FILENO in *.
  rewrite !lookup_insert_ne by congruence. auto.
Qed.

(** A table that agrees with the saved one outside the standard
    streams. *)
Variable f : gmap Z Target.
Hypothesis Hf :
  forall k, k <> STDIN_FILENO -> k <> STDOUT_FILENO -> k <> STDERR_FILENO ->
            f !! k = (saved_table t x0 x1 x2 c0 c1 c2) !! k.

Lemma copies_kept :
  f !! c0 = Some x0 /\ f !! c1 = Some x1 /\ f !! c2 = Some x2.
Proof.
  destruct copies_apart as ((?&?&?)&(?&?&?)&(?&?&?)&?&?&?&_).
  unfold STDIN_FILENO, STDOUT_FILENO, STDERR_FILENO in *.
  rewrite !Hf by assumption. unfold saved_table.
  repeat split.
  - rewrite !lookup_insert_ne by congruence. apply lookup_insert_eq.
  - rewrite lookup_insert_ne by congruence. apply lookup_insert_eq.
  - apply lookup_insert_eq.
Qed.

Lemma restored_table_eq : (restored_table x0 x1 x2 c0 c1 c2 f) = t.
Proof.
  destruct copies_apart as ((?&?&?)&(?&?&?)&(?&?&?)&?&?&?&?&?).
  unfold restored_table, STDIN_FILENO, STDOUT_FILENO, STDERR_FILENO in *.
  apply map_eq. intros k.
  destruct (decide (k = c2)) as [->|]; [now rewrite lookup_delete_eq|].
  rewrite lookup_delete_ne by congruence.
  destruct (decide (k = 2)) as [->|]; [now rewrite lookup_insert_eq|].
  rewrite lookup_insert_ne by congruence.
  destruct (decide (k = c1)) as [->|]; [now rewrite lookup_delete_eq|].
  rewrite lookup_delete_ne by congruence.
  destruct (decide (k = 1)) as [->|]; [now rewrite lookup_insert_eq|].
  rewrite lookup_insert_ne by congruence.
  destruct (decide (k = c0)) as [->|]; [now rewrite lookup_delete_eq|].
  rewrite lookup_delete_ne by congruence.
  destruct (decide (k = 0)) as [->|]; [now rewrite lookup_insert_eq|].
  rewrite lookup_insert_ne by congruence.
  rewrite Hf by assumption. unfold saved_table.
  now rewrite !lookup_insert_ne by congruence.
Qed.

(** The three [restore_fd] calls succeed and give back the table. *)
Lemma restore_std_run {A} (k : M A) (st : State) :
  fds (proc st) = f ->
  (let* _ := restore_fd STDIN_FILENO c0 in
   let* _ := restore_fd STDOUT_FILENO c1 in
   let* _ := restore_fd STDERR_FILENO c2 in
   k) st
  = k (on_proc (set_fds t) st).
Proof.
  intros Hst.
  destruct copies_apart as ((?&?&?)&(?&?&?)&(?&?&?)&?&?&?&?&?).
  destruct copies_kept as (K0 & K1 & K2).
  rewrite <- restored_table_eq. unfold restored_table.
  unfold STDIN_FILENO, STDOUT_FILENO, STDERR_FILENO in *.
  erewrite bind_eq.
  2:{ apply restore_fd_ok with (x := x0); [now rewrite Hst|lia]. }
  erewrite bind_eq.
  2:{ apply restore_fd_ok with (x := x1); [|lia]. cbn.
      rewrite Hst, lookup_delete_ne, lookup_insert_ne by congruence.
      exact K1. }
  erewrite bind_eq.
  2:{ apply restore_fd_ok with (x := x2); [|lia]. cbn.
      rewrite Hst.
      rewrite lookup_delete_ne, lookup_insert_ne by congruence.
      rewrite lookup_delete_ne, lookup_insert_ne by congruence.
      exact K2. }
  cbn. now rewrite Hst.
Qed.

End SaveRestore.

Lemma save_std_run {A} (k : Z -> Z -> Z -> M A) (st : State) x0 x1 x2 :
  fds (proc st) !! STDIN_FILENO = Some x0 ->
  fds (proc st) !! STDOUT_FILENO = Some x1 ->
  fds (proc st) !! STDERR_FILENO = Some x2 ->
  let t := fds (proc st) in
  let c0 := lowest_free t in
  let c1 := lowest_free (<[c0 := x0]> t) in
  let c2 := lowest_free (<[c1 := x1]> (<[c0 := x0]> t)) in
  (let* a := sys_dup STDIN_FILENO in
   let* b := sys_dup STDOUT_FILENO in
   let* c := sys_dup STDERR_FILENO in
   k a b c) st
  = k c0 c1 c2 (on_proc (set_fds (saved_table t x0 x1 x2 c0 c1 c2)) st).
Proof.
  intros H0 H1 H2 t c0 c1 c2.
  assert (N01 : c0 <> STDOUT_FILENO) by (apply lowest_free_not_open; eauto).
  assert (N02 : c0 <> STDERR_FILENO) by (apply lowest_free_not_open; eauto).
  assert (N12 : c1 <> STDERR_FILENO).
  { apply lowest_free_not_open. rewrite lookup_insert_ne by exact N02.
    eauto. }
  erewrite bind_eq by (apply sys_dup_open; exact H0).
  erewrite bind_eq.
  2:{ apply sys_dup_open with (x := x1). cbn.
      rewrite lookup_insert_ne by exact N01. exact H1. }
  erewrite bind_eq.
  2:{ apply sys_dup_open with (x := x2). cbn.
      rewrite !lookup_insert_ne by assumption. exact H2. }
  reflexivity.
Qed.

(** ** [parse_simple] gives the descriptor table back *)

Lemma parse_simple_keeps_table image first_done s up st r st' :
  std_open (fds (proc st)) ->
  parse_simple image first_done s up st = Ret r st' ->
  fds (proc st') = fds (proc st).
Proof.
  intros ([x0 H0] & [x1 H1] & [x2 H2]) H.
  unfold parse_simple in H.
  rewrite (save_std_run _ st x0 x1 x2 H0 H1 H2) in H. cbv zeta in H.
  set (t := fds (proc st)) in *.
  set (c0 := lowest_free t) in *.
  set (c1 := lowest_free (<[c0 := x0]> t)) in *.
  set (c2 := lowest_free (<[c1 := x1]> (<[c0 := x0]> t))) in *.
  assert (F0 : t !! c0 = None) by apply lowest_free_fresh.
  assert (F1 : <[c0 := x0]> t !! c1 = None) by apply lowest_free_fresh.
  assert (F2 : <[c1 := x1]> (<[c0 := x0]> t) !! c2 = None)
    by apply lowest_free_fresh.
  clearbody c0 c1 c2.
  apply bind_Ret in H as (r' & st4 & Hbody & H).
  pose proof (rebinds_simple_body image first_done s up (get_word (s_in s))
                (get_word (s_out s)) (get_word (s_err s)) (get_argv s)
                (on_proc (set_fds (saved_table t x0 x1 x2 c0 c1 c2)) st))
    as Hreb.
  rewrite Hbody in Hreb.
  destruct (saved_table_std t x0 x1 x2 c0 c1 c2 H0 H1 H2 F0 F1 F2)
    as (S0 & S1 & S2).
  destruct Hreb as [Hk _]; [split; cbn; eauto|]. cbn in Hk.
  rewrite (restore_std_run t x0 x1 x2 c0 c1 c2 H0 H1 H2 F0 F1 F2
             (fds (proc st4))) in H; [|auto|reflexivity].
  inversion H; subst. reflexivity.
Qed.

(** ** The pipe node *)

Section PipeNode.

Variable image : Proc -> list string -> exec_result.
Variable first_done : list (Z * Z) -> nat.

(** What [case OP_PIPE] has set up when it recurses into [cmd2]. *)
Lemma pipe_prefix_inv eval_cmd1 st x stB :
  std_open (fds (proc st)) ->
  pipe_prefix eval_cmd1 st = Ret x stB ->
  fds (proc stB) !! STDIN_FILENO = Some (PipeRd (next_pipe (world st)))
  /\ fds (proc stB) !! STDOUT_FILENO = fds (proc st) !! STDOUT_FILENO
  /\ fds (proc stB) !! STDERR_FILENO = fds (proc st) !! STDERR_FILENO
  /\ pid (proc stB) = pid (proc st)
  /\ pid_first x = next_pid (world st)
  /\ (exists ws,
        children (proc stB)
        = (children (proc st) ++ [(pid_first x, ws)])%list)
  /\ (forall A (k : M A) s4,
        fds (proc s4) = fds (proc stB) ->
        (let* _ := restore_fd STDIN_FILENO (fdin_copy x) in
         let* _ := restore_fd STDOUT_FILENO (fdout_copy x) in
         let* _ := restore_fd STDERR_FILENO (fderr_copy x) in
         k) s4
        = k (on_proc (set_fds (fds (proc st))) s4)).
Proof.
  intros ([x0 H0] & [x1 H1] & [x2 H2]) H.
  unfold pipe_prefix in H.
  rewrite (save_std_run _ st x0 x1 x2 H0 H1 H2) in H. cbv zeta in H.
  set (t := fds (proc st)) in *.
  set (c0 := lowest_free t) in *.
  set (c1 := lowest_free (<[c0 := x0]> t)) in *.
  set (c2 := lowest_free (<[c1 := x1]> (<[c0 := x0]> t))) in *.
  assert (F0 : t !! c0 = None) by apply lowest_free_fresh.
  assert (F1 : <[c0 := x0]> t !! c1 = None) by apply lowest_free_fresh.
  assert (F2 : <[c1 := x1]> (<[c0 := x0]> t) !! c2 = None)
    by apply lowest_free_fresh.
  clearbody c0 c1 c2.
  destruct (saved_table_std t x0 x1 x2 c0 c1 c2 H0 H1 H2 F0 F1 F2)
    as (S0 & S1 & S2).
  set (t3 := saved_table t x0 x1 x2 c0 c1 c2) in *.
  erewrite bind_eq in H by reflexivity. cbn in H.
  set (id := next_pipe (world st)) in *.
  set (rd := lowest_free t3) in *.
  set (wr := lowest_free (<[rd := PipeRd id]> t3)) in *.
  assert (Frd : t3 !! rd = None) by apply lowest_free_fresh.
  assert (Fwr : <[rd := PipeRd id]> t3 !! wr = None)
    by apply lowest_free_fresh.
  clearbody rd wr.
  apply lookup_insert_None in Fwr as [Fwr Nrw].
  assert (Nrd : rd <> 0 /\ rd <> 1 /\ rd <> 2).
  { unfold STDIN_FILENO, STDOUT_FILENO, STDERR_FILENO in *.
    repeat split; intros ->; congruence. }
  assert (Nwr : wr <> 0 /\ wr <> 1 /\ wr <> 2).
  { unfold STDIN_FILENO, STDOUT_FILENO, STDERR_FILENO in *.
    repeat split; intros ->; congruence. }
  destruct Nrd as (?&?&?). destruct Nwr as (?&?&?).
  apply bind_Ret in H as (p & st6 & Hfork & H).
  unfold fork_child in Hfork.
  destruct (child_end _) as [[ws w]|]; [|discriminate].
  inversion Hfork; subst p st6; clear Hfork.
  erewrite bind_eq in H.
  2:{ apply sys_dup2_ok with (x := PipeRd id); [|unfold STDIN_FILENO; lia].
      cbn. rewrite lookup_insert_ne by congruence. apply lookup_insert_eq. }
  unfold STDIN_FILENO in H. cbn in H.
  unfold bind at 1, DIE at 1 in H. cbn in H.
  erewrite bind_eq in H.
  2:{ apply sys_close_ok with (x := PipeRd id). cbn.
      rewrite !lookup_insert_ne by congruence. apply lookup_insert_eq. }
  unfold bind at 1, DIE at 1 in H. cbn in H.
  erewrite bind_eq in H.
  2:{ apply sys_close_ok with (x := PipeWr id). cbn.
      rewrite lookup_delete_ne, lookup_insert_ne by congruence.
      apply lookup_insert_eq. }
  unfold bind at 1, DIE at 1 in H. cbn in H.
  inversion H; subst x stB; clear H. cbn.
  unfold STDIN_FILENO, STDOUT_FILENO, STDERR_FILENO in *.
  split.
  { rewrite !lookup_delete_ne by congruence. apply lookup_insert_eq. }
  split.
  { rewrite !lookup_delete_ne, !lookup_insert_ne by congruence.
    now rewrite S1. }
  split.
  { rewrite !lookup_delete_ne, !lookup_insert_ne by congruence.
    now rewrite S2. }
  split; [reflexivity|]. split; [reflexivity|].
  split; [eauto|].
  intros A k s4 Hs4.
  apply (restore_std_run t x0 x1 x2 c0 c1 c2 H0 H1 H2 F0 F1 F2
           (fds (proc s4))); [|reflexivity].
  intros j J0 J1 J2. rewrite Hs4. fold t3.
  unfold STDIN_FILENO, STDOUT_FILENO, STDERR_FILENO in *.
  destruct (decide (j = wr)) as [->|];
    [now rewrite lookup_delete_eq|].
  rewrite lookup_delete_ne by congruence.
  destruct (decide (j = rd)) as [->|];
    [now rewrite lookup_delete_eq|].
  rewrite lookup_delete_ne by congruence.
  now rewrite !lookup_insert_ne by congruence.
Qed.

(** What [case OP_PIPE] does after the recursion into [cmd2], in a
    state whose descriptor table can be restored. *)
Lemma pipe_suffix_run x pid_second t st2 o1 st3 o2 st4 :
  (forall A (k : M A) s4,
      fds (proc s4) = fds (proc st2) ->
      (let* _ := restore_fd STDIN_FILENO (fdin_copy x) in
       let* _ := restore_fd STDOUT_FILENO (fdout_copy x) in
       let* _ := restore_fd STDERR_FILENO (fderr_copy x) in
       k) s4
      = k (on_proc (set_fds t) s4)) ->
  sys_waitpid first_done (pid_first x) st2 = Ret o1 st3 ->
  sys_waitpid first_done pid_second st3 = Ret o2 st4 ->
  pipe_suffix first_done x pid_second st2
  = match o2 with
    | Some wstatus => Ret (WEXITSTATUS wstatus) (on_proc (set_fds t) st4)
    | None => Undef
    end.
Proof.
  intros Hrestore Hw1 Hw2. unfold pipe_suffix.
  rewrite (bind_eq _ _ _ _ _ Hw1), (bind_eq _ _ _ _ _ Hw2).
  pose proof (keeps_waitpid first_done (pid_first x) st2) as K1.
  pose proof (keeps_waitpid first_done pid_second st3) as K2.
  rewrite Hw1 in K1. rewrite Hw2 in K2. unfold same_fds in *.
  rewrite Hrestore by congruence.
  now destruct o2.
Qed.

End PipeNode.

(** ** [parse_command] gives the descriptor table back *)

Section TableKept.

Variable image : Proc -> list string -> exec_result.
Variable first_done : list (Z * Z) -> nat.

Lemma std_kept_trans a b c : std_kept a b -> std_kept b c -> std_kept a c.
Proof.
  unfold std_kept. intros Hab Hbc Ha.
  rewrite <- (Hab Ha). apply Hbc. now rewrite (Hab Ha).
Qed.

Lemma table_of_keeps {A} (m : M A) : keeps_fds m -> keeps_table m.
Proof.
  apply respects_weaken; [|auto]. unfold same_fds, std_kept. auto.
Qed.

Lemma table_ret {A} (a : A) : keeps_table (ret a).
Proof. apply respects_ret. intros st _. reflexivity. Qed.

Lemma table_bind {A B} (m : M A) (f : A -> M B) :
  keeps_table m -> (forall a, keeps_table (f a)) -> keeps_table (bind m f).
Proof.
  apply respects_bind; [apply std_kept_trans|]. unfold any_world. auto.
Qed.

Lemma sys_waitpid_returns p st :
  exists o st', sys_waitpid first_done p st = Ret o st'.
Proof.
  unfold sys_waitpid. cbv zeta.
  match goal with
  | |- context [match ?o with Some _ => _ | None => _ end] =>
      destruct o as [[? ?]|]
  end; eauto.
Qed.

Lemma table_pipe (eval_cmd1 eval_cmd2 : M Z) :
  keeps_table eval_cmd2 ->
  keeps_table
    (let* x := pipe_prefix eval_cmd1 in
     let* pid_second := eval_cmd2 in
     pipe_suffix first_done x pid_second).
Proof.
  intros He2 st.
  destruct (bind _ _ st) as [r st'| |] eqn:E; try exact I.
  intros Hopen.
  apply bind_Ret in E as (x & stB & Hp & E).
  apply bind_Ret in E as (p & st2 & H2 & E).
  destruct (pipe_prefix_inv _ _ _ _ Hopen Hp)
    as (B0 & B1 & B2 & _ & _ & _ & Hres).
  assert (HopenB : std_open (fds (proc stB))).
  { destruct Hopen as (O0 & O1 & O2). unfold std_open.
    rewrite B0, B1, B2. eauto. }
  specialize (He2 stB). rewrite H2 in He2. specialize (He2 HopenB).
  destruct (sys_waitpid_returns (pid_first x) st2) as (o1 & st3 & W1).
  destruct (sys_waitpid_returns p st3) as (o2 & st4 & W2).
  rewrite (pipe_suffix_run first_done x p (fds (proc st)) st2 o1 st3 o2 st4)
    in E; auto.
  - destruct o2; [|discriminate]. inversion E; subst. reflexivity.
  - intros A k s4 Hs4. apply Hres. congruence.
Qed.

Lemma parse_command_keeps_table c :
  forall up, keeps_table (parse_command image first_done c up).
Proof.
  induction c as [|s| |op c1 IH1 c2 IH2]; intros up.
  - intros st. exact I.
  - intros st. cbn.
    destruct (parse_simple _ _ _ _ st) as [r st'| |] eqn:E; try exact I.
    intros Hopen. eapply parse_simple_keeps_table; eauto.
  - apply table_ret.
  - destruct op; cbn [parse_command].
    + destruct (is_null c1); [apply IH2|].
      apply table_bind; [apply IH1|intros r].
      destruct (r =? SHELL_EXIT); [apply table_ret|apply IH2].
    + apply table_of_keeps.
      apply keeps_bind; [apply keeps_fork|intros p1].
      apply keeps_bind; [apply keeps_fork|intros p2].
      apply keeps_bind; [apply keeps_waitpid|intros _].
      apply keeps_bind; [apply keeps_waitpid|intros _].
      apply keeps_ret.
    + apply table_bind.
      * destruct (is_null c1); [apply respects_undef|apply IH1].
      * intros r. destruct (r =? EXIT_FAILURE); [apply IH2|apply table_ret].
    + apply table_bind.
      * destruct (is_null c1); [apply respects_undef|apply IH1].
      * intros r. destruct (r =? EXIT_SUCCESS); [apply IH2|apply table_ret].
    + apply table_pipe, IH2.
Qed.

End TableKept.

(** ** Process ids only grow *)

Section PidsGrow.

Variable image : Proc -> list string -> exec_result.
Variable first_done : list (Z * Z) -> nat.

Lemma grows_ret {A} (a : A) : grows (ret a).
Proof. apply respects_ret. intros st. unfold pid_le. lia. Qed.

Lemma grows_undef {A} : grows (@undef A).
Proof. apply respects_undef. Qed.

Lemma grows_bind {A B} (m : M A) (f : A -> M B) :
  grows m -> (forall a, grows (f a)) -> grows (bind m f).
Proof. apply respects_bind; unfold pid_le, pid_le_end; intros; lia. Qed.

Lemma grows_if {A} (b : bool) (m1 m2 : M A) :
  grows m1 -> grows m2 -> grows (if b then m1 else m2).
Proof. apply respects_if. Qed.

Ltac primitive :=
  intros st; unfold pid_le, pid_le_end; cbn;
  repeat (match goal with
          | |- context [match ?x with _ => _ end] =>
              lazymatch x with
              | context [match _ with _ => _ end] => fail
              | _ => destruct x
              end
          end; cbn);
  first [lia | exact I].

Lemma grows_segfault {A} : grows (@segfault A).
Proof. unfold segfault. primitive. Qed.
Lemma grows_exit {A} code : grows (@exit_ A code).
Proof. unfold exit_. primitive. Qed.
Lemma grows_DIE b call : grows (DIE b call).
Proof. unfold DIE. primitive. Qed.
Lemma grows_dup fd : grows (sys_dup fd).
Proof. unfold sys_dup. primitive. Qed.
Lemma grows_dup2 fd fd2 : grows (sys_dup2 fd fd2).
Proof. unfold sys_dup2. primitive. Qed.
Lemma grows_close fd : grows (sys_close fd).
Proof. unfold sys_close. primitive. Qed.
Lemma grows_pipe : grows sys_pipe.
Proof. unfold sys_pipe. primitive. Qed.
Lemma grows_write fd s : grows (sys_write fd s).
Proof. unfold sys_write. primitive. Qed.
Lemma grows_get_errno : grows get_errno.
Proof. unfold get_errno. primitive. Qed.
Lemma grows_chdir path : grows (sys_chdir path).
Proof. unfold sys_chdir. primitive. Qed.
Lemma grows_getcwd size : grows (sys_getcwd size).
Proof. unfold sys_getcwd. primitive. Qed.
Lemma grows_setenv name value : grows (sys_setenv name value).
Proof. unfold sys_setenv. primitive. Qed.
Lemma grows_is_pipe_cmd2 up : grows (is_pipe_cmd2 up).
Proof. unfold is_pipe_cmd2, segfault, ret. primitive. Qed.

Lemma grows_open path flags mode : grows (sys_open path flags mode).
Proof.
  intros st. unfold sys_open, pid_le.
  destruct (open_check _ _ _ _) as [e|w] eqn:E; cbn; [lia|].
  unfold open_check in E. repeat case_match; inversion E; subst; cbn; lia.
Qed.

Lemma grows_waitpid p : grows (sys_waitpid first_done p).
Proof.
  intros st. unfold sys_waitpid, pid_le. cbv zeta.
  match goal with
  | |- context [match ?o with Some _ => _ | None => _ end] =>
      destruct o as [[? ?]|]
  end; cbn; lia.
Qed.

Lemma grows_fork child : grows child -> grows (fork_child child).
Proof.
  intros Hc st. unfold fork_child, child_end, pid_le.
  specialize (Hc (child_state st)). unfold pid_le, pid_le_end in Hc.
  destruct (child (child_state st)); cbn in *; first [lia | exact I].
Qed.

Ltac grows_step :=
  first
    [ apply grows_ret | apply grows_undef | apply grows_segfault
    | apply grows_exit | apply grows_DIE | apply grows_dup
    | apply grows_dup2 | apply grows_close | apply grows_pipe
    | apply grows_write | apply grows_get_errno | apply grows_chdir
    | apply grows_getcwd | apply grows_setenv | apply grows_is_pipe_cmd2
    | apply grows_open | apply grows_waitpid | apply grows_fork
    | assumption
    | apply grows_if
    | apply grows_bind; [|intros ?]
    | match goal with
      | |- grows (match ?x with _ => _ end) => destruct x
      end ].
Ltac grows_all := repeat grows_step.

Lemma grows_redirect old file flag : grows (redirect old file flag).
Proof. unfold redirect. grows_all. Qed.

Lemma grows_restore_fd fd c : grows (restore_fd fd c).
Proof. unfold restore_fd. grows_all. Qed.

Lemma grows_execvp args : grows (sys_execvp image args).
Proof.
  intros st. unfold sys_execvp.
  destruct (image _ _) as [code|e]; [unfold pid_le_end; cbn; lia|].
  assert (H : grows (let* _ := (if e =? ENOENT
                                then sys_write STDERR_FILENO
                                       ("Execution failed for '"
                                          ++ hd "" args ++ "'" ++ newline)
                                else ret tt) in
                     @exit_ Z EXIT_FAILURE)) by grows_all.
  specialize (H (on_proc (set_errno e) st)).
  destruct (bind _ _ _); exact H.
Qed.

Lemma grows_run_external s up file_in args :
  grows (run_external image first_done s up file_in args).
Proof.
  unfold run_external, external_child, sys_wait.
  apply grows_bind; [|intros p; grows_all].
  apply grows_fork. apply grows_bind; [|intros _; apply grows_execvp].
  apply grows_if; [apply grows_redirect|apply grows_ret].
Qed.

Lemma grows_simple_body s up file_in file_out file_err args :
  grows (simple_body image first_done s up file_in file_out file_err args).
Proof.
  unfold simple_body, apply_io_flags, shell_cd. cbv zeta.
  repeat first [ apply grows_redirect | apply grows_run_external
               | grows_step ].
Qed.

Lemma grows_parse_simple s up :
  grows (parse_simple image first_done s up).
Proof.
  unfold parse_simple. cbv zeta.
  repeat first [ apply grows_simple_body | apply grows_restore_fd
               | grows_step ].
Qed.

Lemma grows_parse_command c :
  forall up, grows (parse_command image first_done c up).
Proof.
  induction c as [|s| |op c1 IH1 c2 IH2]; intros up.
  - apply grows_segfault.
  - apply grows_parse_simple.
  - apply grows_ret.
  - destruct op; cbn [parse_command];
      unfold pipe_prefix, pipe_suffix, pipe_child;
      repeat first [ apply IH1 | apply IH2 | apply grows_restore_fd
                   | grows_step ].
Qed.

End PidsGrow.

(** ** Descriptor calls do not touch the children *)

Section FamilyKept.




Ltac family_primitive :=
  intros st; unfold same_family, any_world; cbn;
  repeat (match goal with
          | |- context [match ?x with _ => _ end] =>
              lazymatch x with
              | context [match _ with _ => _ end] => fail
              | _ => destruct x
              end
          end; cbn);
  first [exact I | repeat split].

Lemma family_DIE b call : keeps_family (DIE b call).
Proof. unfold DIE. family_primitive. Qed.
Lemma family_dup fd : keeps_family (sys_dup fd).
Proof. unfold sys_dup. family_primitive. Qed.
Lemma family_dup2 fd fd2 : keeps_family (sys_dup2 fd fd2).
Proof. unfold sys_dup2. family_primitive. Qed.
Lemma family_close fd : keeps_family (sys_close fd).
Proof. unfold sys_close. family_primitive. Qed.






Lemma keeps_family_Ret {A} (m : M A) st a st' :
  keeps_family m -> m st = Ret a st' -> same_family st st'.
Proof. intros Hm H. specialize (Hm st). now rewrite H in Hm. Qed.

End FamilyKept.

(** * The claims *)

Section Claims.

Variable image : Proc -> list string -> exec_result.
Variable first_done : list (Z * Z) -> nat.

Lemma returns_not_null c up st r st' :
  parse_command image first_done c up st = Ret r st' -> is_null c = false.
Proof. destruct c; [discriminate|reflexivity..]. Qed.

(** [IfFailed(A, B)] evaluates B exactly when A returns [EXIT_FAILURE],
    that is 1; for any other result of A it returns success in the state
    A left. *)
Lemma if_failed_right_iff_one A B up st r stA :
  parse_command image first_done A (up_of_cmd1 OP_CONDITIONAL_NZERO B) st
  = Ret r stA ->
  parse_command image first_done (Node OP_CONDITIONAL_NZERO A B) up st
  = if r =? EXIT_FAILURE
    then parse_command image first_done B (up_of_cmd2 OP_CONDITIONAL_NZERO)
           stA
    else Ret EXIT_SUCCESS stA.
Proof.
  intros HA. pose proof (returns_not_null _ _ _ _ _ HA) as Hnn.
  cbn [parse_command]. rewrite Hnn, (bind_eq _ _ _ _ _ HA).
  now destruct (r =? EXIT_FAILURE).
Qed.

(** C3, as amended: in [IfSucceeded(A, B)] the right side is evaluated
    exactly when A's result is 0, from the state A left; when A's result
    is not 0 the node returns in the state A left, so B is not evaluated,
    and the value returned for a failure status of A is [EXIT_FAILURE],
    whatever that status was. *)
Theorem if_succeeded_right_iff_zero A B up st r stA :
  parse_command image first_done A (up_of_cmd1 OP_CONDITIONAL_ZERO B) st
  = Ret r stA ->
  (r = EXIT_SUCCESS ->
   parse_command image first_done (Node OP_CONDITIONAL_ZERO A B) up st
   = parse_command image first_done B (up_of_cmd2 OP_CONDITIONAL_ZERO) stA)
  /\ (r <> EXIT_SUCCESS ->
      exists v,
        parse_command image first_done (Node OP_CONDITIONAL_ZERO A B) up st
        = Ret v stA
        /\ (r <> SHELL_EXIT -> v = EXIT_FAILURE)).
Proof.
  intros HA. pose proof (returns_not_null _ _ _ _ _ HA) as Hnn.
  cbn [parse_command]. rewrite Hnn, (bind_eq _ _ _ _ _ HA).
  split.
  - intros ->. reflexivity.
  - intros Hr. apply Z.eqb_neq in Hr. rewrite Hr.
    exists EXIT_FAILURE. split; [reflexivity|auto].
Qed.

(** C1, as amended: of the operator nodes, [Sequential], [IfFailed] and
    [IfSucceeded] do not evaluate their right subtree when the left one
    yields the shell-exit sentinel (the node returns in the state the left
    subtree left), and [Sequential] returns the sentinel unchanged, also
    when it is its right subtree that yields it; a [Parallel] node, whose
    subtrees run in forked children, returns success whenever it
    returns. *)
Theorem sentinel_stops_unforked_nodes A B up st :
  (forall op stA,
      op = OP_SEQUENTIAL \/ op = OP_CONDITIONAL_NZERO
      \/ op = OP_CONDITIONAL_ZERO ->
      parse_command image first_done A (up_of_cmd1 op B) st
      = Ret SHELL_EXIT stA ->
      exists v,
        parse_command image first_done (Node op A B) up st = Ret v stA
        /\ (op = OP_SEQUENTIAL -> v = SHELL_EXIT))
  /\ (forall r stA stB,
        parse_command image first_done A (up_of_cmd1 OP_SEQUENTIAL B) st
        = Ret r stA ->
        r <> SHELL_EXIT ->
        parse_command image first_done B (up_of_cmd2 OP_SEQUENTIAL) stA
        = Ret SHELL_EXIT stB ->
        parse_command image first_done (Node OP_SEQUENTIAL A B) up st
        = Ret SHELL_EXIT stB)
  /\ (forall v st',
        parse_command image first_done (Node OP_PARALLEL A B) up st
        = Ret v st' ->
        v = EXIT_SUCCESS).
Proof.
  split; [|split].
  - intros op stA Hop HA.
    pose proof (returns_not_null _ _ _ _ _ HA) as Hnn.
    destruct Hop as [->|[->| ->]]; cbn [parse_command];
      rewrite Hnn, (bind_eq _ _ _ _ _ HA); cbn; eauto.
    + exists EXIT_SUCCESS. split; [reflexivity|discriminate].
    + exists EXIT_FAILURE. split; [reflexivity|discriminate].
  - intros r stA stB HA Hr HB.
    pose proof (returns_not_null _ _ _ _ _ HA) as Hnn.
    cbn [parse_command]. rewrite Hnn, (bind_eq _ _ _ _ _ HA).
    apply Z.eqb_neq in Hr. now rewrite Hr.
  - intros v st' H. cbn [parse_command] in H.
    apply bind_Ret in H as (p1 & s1 & _ & H).
    apply bind_Ret in H as (p2 & s2 & _ & H).
    apply bind_Ret in H as (o1 & s3 & _ & H).
    apply bind_Ret in H as (o2 & s4 & _ & H).
    now inversion H.
Qed.

(** *** Waiting for a child by its process id *)

Lemma reap_pid_app p ws (l l' : list (Z * Z)) :
  Forall (fun c => fst c <> p) l ->
  reap_pid p (l ++ (p, ws) :: l')%list = Some (ws, (l ++ l')%list).
Proof.
  induction l as [|[q w] l IH]; intros Hl; cbn.
  - now rewrite Z.eqb_refl.
  - inversion Hl as [|? ? Hq Hl']; subst. cbn in Hq.
    apply Z.eqb_neq in Hq. rewrite Hq. now rewrite IH.
Qed.

Lemma sys_waitpid_child p ws (l l' : list (Z * Z)) st :
  0 < p ->
  children (proc st) = (l ++ (p, ws) :: l')%list ->
  Forall (fun c => fst c <> p) l ->
  sys_waitpid first_done p st
  = Ret (Some ws) (on_proc (set_children (l ++ l')%list) st).
Proof.
  intros Hp Hc Hl. unfold sys_waitpid. cbv zeta.
  apply Z.ltb_lt in Hp. rewrite Hp, Hc, reap_pid_app by exact Hl.
  reflexivity.
Qed.

Lemma child_end_grows (m : M Z) st ws w :
  grows m -> child_end (m st) = Some (ws, w) ->
  next_pid (world st) <= next_pid w.
Proof.
  intros Hm H. specialize (Hm st). unfold child_end in H.
  destruct (m st); inversion H; subst; exact Hm.
Qed.

(** C6: a [Parallel] node forks one child per subtree, each of which
    leaves the wait status of [exit] applied to its own result; the
    parent waits for both (they are gone from its table of children) and
    returns success whatever the two statuses are. *)
Theorem parallel_returns_success A B up st ws1 w1 ws2 w2 :
  pids_below st ->
  child_end (parse_command image first_done A (up_of_cmd1 OP_PARALLEL B)
               (child_state st)) = Some (ws1, w1) ->
  child_end (parse_command image first_done B (up_of_cmd2 OP_PARALLEL)
               (child_state
                  (mk_state
                     (set_children
                        (children (proc st) ++ [(next_pid (world st), ws1)])
                        (proc st)) w1))) = Some (ws2, w2) ->
  parse_command image first_done (Node OP_PARALLEL A B) up st
  = Ret EXIT_SUCCESS (mk_state (proc st) w2)
  /\ (forall r stA,
        parse_command image first_done A (up_of_cmd1 OP_PARALLEL B)
          (child_state st) = Ret r stA -> ws1 = wexit r)
  /\ (forall r stB,
        parse_command image first_done B (up_of_cmd2 OP_PARALLEL)
          (child_state
             (mk_state
                (set_children
                   (children (proc st) ++ [(next_pid (world st), ws1)])
                   (proc st)) w1)) = Ret r stB -> ws2 = wexit r).
Proof.
  intros [Hpos Hbelow] H1 H2.
  pose proof (child_end_grows _ _ _ _
                (grows_parse_command image first_done A _) H1) as G1.
  cbn in G1.
  split; [|split].
  - cbn [parse_command].
    erewrite bind_eq by (unfold fork_child; rewrite H1; reflexivity).
    erewrite bind_eq by (unfold fork_child; cbn [proc world];
                         rewrite H2; reflexivity).
    cbn [proc world children set_children next_pid].
    erewrite bind_eq.
    2:{ apply sys_waitpid_child
          with (l := children (proc st)) (l' := [(next_pid w1, ws2)]);
          [exact Hpos|cbn; now rewrite <- app_assoc|].
        eapply Forall_impl; [exact Hbelow|]. cbn. intros c Hc. lia. }
    erewrite bind_eq.
    2:{ apply sys_waitpid_child
          with (l := children (proc st)) (l' := []); [lia|reflexivity|].
        eapply Forall_impl; [exact Hbelow|]. cbn. intros c Hc. lia. }
    unfold ret. f_equal. destruct st as [[] ?]. cbn.
    now rewrite app_nil_r.
  - intros r stA HA. rewrite HA in H1. now inversion H1.
  - intros r stB HB. rewrite HB in H2. now inversion H2.
Qed.

(** C7: when the evaluation of a leaf returns, whichever branch it took,
    each of the three standard descriptors refers to what it referred to
    before the call. *)
Theorem leaf_restores_standard_streams s up st r st' :
  std_open (fds (proc st)) ->
  parse_simple image first_done s up st = Ret r st' ->
  fds (proc st') !! STDIN_FILENO = fds (proc st) !! STDIN_FILENO
  /\ fds (proc st') !! STDOUT_FILENO = fds (proc st) !! STDOUT_FILENO
  /\ fds (proc st') !! STDERR_FILENO = fds (proc st) !! STDERR_FILENO.
Proof.
  intros Hopen H.
  now rewrite (parse_simple_keeps_table _ _ _ _ _ _ _ Hopen H).
Qed.


(** *** The external command *)

Lemma run_external_pipe_cmd2 s file_in args st ws w :
  child_end (external_child image s file_in args (child_state st))
  = Some (ws, w) ->
  run_external image first_done s (Up OP_PIPE IsSelf) file_in args st
  = Ret (next_pid (world st))
      (mk_state
         (set_children (children (proc st) ++ [(next_pid (world st), ws)])
            (proc st)) w).
Proof.
  intros Hc. unfold run_external.
  erewrite bind_eq by (unfold fork_child; rewrite Hc; reflexivity).
  reflexivity.
Qed.

Lemma run_external_waits s up file_in args st ws w :
  child_end (external_child image s file_in args (child_state st))
  = Some (ws, w) ->
  up <> Up OP_PIPE IsSelf -> up <> Up OP_PIPE IsNull ->
  children (proc st) = [] ->
  run_external image first_done s up file_in args st
  = Ret (WEXITSTATUS ws) (mk_state (set_children [] (proc st)) w).
Proof.
  intros Hc Hself Hnull Hno. unfold run_external.
  erewrite bind_eq by (unfold fork_child; rewrite Hc; reflexivity).
  assert (Hup : is_pipe_cmd2 up = ret false).
  { destruct up as [|[] []]; try reflexivity; congruence. }
  rewrite Hup. erewrite bind_eq by reflexivity. cbn iota.
  unfold sys_wait, sys_waitpid, bind. cbn. rewrite Hno. cbn.
  unfold reap_any. cbn [length]. rewrite Nat.mod_1_r. reflexivity.
Qed.

Lemma WEXITSTATUS_wexit code : WEXITSTATUS (wexit code) = Z.land code 255.
Proof.
  unfold WEXITSTATUS, wexit.
  change 65280 with (Z.shiftl 255 8).
  rewrite <- Z.shiftl_land, <- Z.land_assoc. cbn [Z.land Pos.land].
  change (Z.land 255 255) with 255.
  rewrite Z.shiftr_shiftl_l by lia. now rewrite Z.sub_diag.
Qed.



Lemma no_redirection s file_out file_err st :
  s_out s = None -> s_err s = None -> io_flags s = 0 ->
  apply_io_flags s file_out file_err st = Ret tt st.
Proof.
  intros Hout Herr Hio. unfold apply_io_flags. cbv zeta.
  now rewrite Hio, Hout, Herr.
Qed.



End Claims.

(** * The claims on the concrete system *)

Module Concrete.
Import Scenario.


Lemma st0_std_open : std_open (fds (proc st0)).
Proof. repeat split; vm_compute; eauto. Qed.

(** Each kind of leaf returns, with the descriptor table it was called
    with: [exit], [cd] with and without an operand, [pwd], an assignment
    and an external command. *)
Lemma every_leaf_path_returns :
  Forall (fun sc =>
            exists r st',
              parse_simple image oldest sc Root st0 = Ret r st'
              /\ fds (proc st') = fds proc0)
    [simple "exit" []; simple "cd" []; simple "cd" ["/tmp"];
     simple "cd" ["/nonexistent"]; simple "pwd" []; pwd_to_file;
     mk_simple (mk_word "X" ["="; "1"]) [] None None None 0;
     simple "seven" []; simple "nothing" []].
Proof.
  repeat constructor; eexists _, _; (split; [vm_compute; reflexivity|]);
    reflexivity.
Qed.

(** C1, counterexample: the left subtree [exit] yields the sentinel, and
    [Parallel] returns success after its right subtree [pwd] has written
    the directory; [IfFailed] returns success and [IfSucceeded] failure;
    [Pipe], whose left subtree is [exit], runs its right subtree and
    returns that one's status 7. *)
Lemma sentinel_not_propagated :
  (result_of (parse_command image oldest cmd_exit
                (up_of_cmd1 OP_PARALLEL cmd_pwd) (child_state st0))
   = Some SHELL_EXIT
   /\ result_of (run (Node OP_PARALLEL cmd_exit cmd_pwd)) = Some EXIT_SUCCESS
   /\ log_of (run (Node OP_PARALLEL cmd_exit cmd_pwd))
      = [EvWrite (Tty 1) ("/" ++ newline)])
  /\ (result_of (parse_command image oldest cmd_exit
                   (up_of_cmd1 OP_CONDITIONAL_NZERO cmd_pwd) st0)
      = Some SHELL_EXIT
      /\ result_of (run (Node OP_CONDITIONAL_NZERO cmd_exit cmd_pwd))
         = Some EXIT_SUCCESS)
  /\ (result_of (parse_command image oldest cmd_exit
                   (up_of_cmd1 OP_CONDITIONAL_ZERO cmd_pwd) st0)
      = Some SHELL_EXIT
      /\ result_of (run (Node OP_CONDITIONAL_ZERO cmd_exit cmd_pwd))
         = Some EXIT_FAILURE)
  /\ (result_of (run (Node OP_PIPE cmd_exit cmd_seven)) = Some 7
      /\ log_of (run (Node OP_PIPE cmd_exit cmd_seven))
         = [EvExec 101 ["seven"] (Some (PipeRd 0)) (Some (Tty 1))
              (Some (Tty 2))]).
Proof. vm_compute. repeat split. Qed.

(** C2, at the failing input: the left side exits with status 2, and
    [IfFailed] returns success without evaluating its right side: the
    only event is the run of the left program. *)
Lemma if_failed_skips_right_on_status_2 :
  result_of (parse_command image oldest cmd_two
               (up_of_cmd1 OP_CONDITIONAL_NZERO cmd_pwd) st0) = Some 2
  /\ result_of (run (Node OP_CONDITIONAL_NZERO cmd_two cmd_pwd))
     = Some EXIT_SUCCESS
  /\ log_of (run (Node OP_CONDITIONAL_NZERO cmd_two cmd_pwd))
     = [EvExec 100 ["two"] (Some (Tty 0)) (Some (Tty 1)) (Some (Tty 2))].
Proof. vm_compute. repeat split. Qed.

(** C3, counterexample: the left side fails with status 2 and
    [IfSucceeded] returns 1, not 2. *)
Lemma if_succeeded_loses_status :
  result_of (parse_command image oldest cmd_two
               (up_of_cmd1 OP_CONDITIONAL_ZERO cmd_pwd) st0) = Some 2
  /\ result_of (run (Node OP_CONDITIONAL_ZERO cmd_two cmd_pwd)) = Some 1.
Proof. vm_compute. repeat split. Qed.


(** C8, at the failing inputs. The intent is to read and the file does
    not exist: [redirect] creates it with mode 0644 and binds stdin to
    the descriptor opened for writing. The intent is to read and the file
    exists but may not be read, so that [open] fails for another reason
    than a missing path: the process does not abort, [redirect] opens the
    file again for writing and truncates it. *)
Lemma redirect_creates_for_read :
  (let out := redirect STDIN_FILENO (Some "missing") O_RDONLY st0 in
   files world0 !! "missing" = None
   /\ result_of out = Some tt
   /\ log_of out = [EvCreate "missing" 420]
   /\ (fun st => fds (proc st) !! STDIN_FILENO) <$> state_of out
      = Some (Some (File "missing"
                      (Z.lor O_CREAT (Z.lor O_TRUNC O_WRONLY))))
   /\ (fun st => files (world st) !! "missing") <$> state_of out
      = Some (Some (Reg true true)))
  /\ (let out := redirect STDIN_FILENO (Some "locked") O_RDONLY st0 in
      open_check world0 (Some "locked") O_RDONLY 0 = inl EACCES
      /\ result_of out = Some tt
      /\ log_of out = [EvTrunc "locked"]
      /\ (fun st => fds (proc st) !! STDIN_FILENO) <$> state_of out
         = Some (Some (File "locked"
                         (Z.lor O_CREAT (Z.lor O_TRUNC O_WRONLY))))).
Proof. vm_compute. repeat split. Qed.

(** C9, at the failing input: [cd] to a directory that does not exist
    returns 1 and leaves the working directory alone, and nothing is
    written: the log of events stays empty. *)
Lemma cd_failure_prints_nothing :
  files world0 !! "/nonexistent" = None
  /\ result_of (run cmd_cd_missing) = Some EXIT_FAILURE
  /\ log_of (run cmd_cd_missing) = []
  /\ (fun st => cwd (proc st)) <$> state_of (run cmd_cd_missing)
     = Some (cwd proc0).
Proof. vm_compute. repeat split. Qed.

(** C3, witness: the left side exits with 2; the right side is not
    evaluated and the node returns [EXIT_FAILURE]. *)
Lemma if_succeeded_right_iff_zero_witness :
  exists v stA,
    parse_command image oldest cmd_two
      (up_of_cmd1 OP_CONDITIONAL_ZERO cmd_pwd) st0 = Ret 2 stA
    /\ run (Node OP_CONDITIONAL_ZERO cmd_two cmd_pwd) = Ret v stA
    /\ v = EXIT_FAILURE.
Proof.
  eexists _, _. split; [vm_compute; reflexivity|].
  edestruct (if_succeeded_right_iff_zero image oldest cmd_two cmd_pwd Root
               st0 2) as [_ H]; [vm_compute; reflexivity|].
  destruct H as (v & Hv & Hfail); [discriminate|].
  rewrite (Hfail ltac:(discriminate)) in Hv. split; [exact Hv|reflexivity].
Defined.

(** C1, witness: [exit ; pwd] returns the sentinel and writes nothing. *)
Lemma sentinel_stops_unforked_nodes_witness :
  exists stA,
    run (Node OP_SEQUENTIAL cmd_exit cmd_pwd) = Ret SHELL_EXIT stA
    /\ log (world stA) = [].
Proof.
  destruct (sentinel_stops_unforked_nodes image oldest cmd_exit cmd_pwd Root
              st0) as [H _].
  edestruct (H OP_SEQUENTIAL) as (v & Hv & Hseq);
    [left; reflexivity|vm_compute; reflexivity|].
  rewrite (Hseq eq_refl) in Hv.
  eexists. split; [exact Hv|reflexivity].
Defined.



(** C6, witness: [false & false] returns success. *)
Lemma parallel_returns_success_witness :
  exists w2,
    run (Node OP_PARALLEL (Scmd (simple "false" []))
           (Scmd (simple "false" [])))
    = Ret EXIT_SUCCESS (mk_state proc0 w2).
Proof.
  edestruct (parallel_returns_success image oldest
               (Scmd (simple "false" [])) (Scmd (simple "false" [])) Root
               st0) as [H _];
    [split; [reflexivity|constructor]|vm_compute; reflexivity..|].
  eexists. exact H.
Defined.

(** C7, witness: [pwd] with its output redirected to a file that does not
    exist yet writes the directory to the file, and afterwards the three
    standard streams are the terminal again. *)
Lemma leaf_restores_standard_streams_witness :
  exists st',
    parse_simple image oldest pwd_to_file Root st0 = Ret 0 st'
    /\ log (world st')
       = [EvCreate "out.txt" 420;
          EvWrite (File "out.txt" (Z.lor O_CREAT (Z.lor O_TRUNC O_WRONLY)))
            ("/" ++ newline)]
    /\ fds (proc st') !! STDIN_FILENO = Some (Tty 0)
    /\ fds (proc st') !! STDOUT_FILENO = Some (Tty 1)
    /\ fds (proc st') !! STDERR_FILENO = Some (Tty 2).
Proof.
  eexists. split; [vm_compute; reflexivity|].
  split; [reflexivity|].
  edestruct (leaf_restores_standard_streams image oldest pwd_to_file
               Root st0) as (H0 & H1 & H2);
    [apply st0_std_open|vm_compute; reflexivity|].
  rewrite H0, H1, H2. repeat split.
Defined.

End Concrete.


(** * Further properties of the code *)

(** ** [redirect] and [restore_fd] *)

Section RedirectRuns.

Implicit Types st : State.

Lemma sys_open_ok st path flags mode w :
  open_check (world st) path flags mode = inr w ->
  sys_open path flags mode st
  = Ret (lowest_free (fds (proc st)))
      (mk_state
         (set_fds (<[lowest_free (fds (proc st))
                     := File (default "" path) flags]> (fds (proc st)))
            (proc st)) w).
Proof. unfold sys_open. now intros ->. Qed.

Lemma sys_open_fails st path flags mode e :
  open_check (world st) path flags mode = inl e ->
  sys_open path flags mode st = Ret (-1) (on_proc (set_errno e) st).
Proof. unfold sys_open. now intros ->. Qed.

(** What [redirect] does once one of its [open] calls has given the
    descriptor [n], free in the table [t] of the state it started from. *)
Lemma redirect_bind_slot st old n x (t : gmap Z Target) :
  fds (proc st) = <[n := x]> t ->
  t !! n = None -> is_Some (t !! old) -> 0 <= old ->
  (let* rc := sys_dup2 n old in
   let* _ := DIE (rc <? 0) "dup2" in
   let* rc := sys_close n in
   DIE (rc <? 0) "close") st
  = Ret tt (on_proc (set_fds (<[old := x]> t)) st).
Proof.
  intros Hst Hn Hold Hpos.
  assert (Hne : n <> old).
  { intros ->. destruct Hold as [y Hy]. congruence. }
  erewrite bind_eq.
  2:{ apply sys_dup2_ok with (x := x); [|exact Hpos].
      rewrite Hst. apply lookup_insert_eq. }
  destruct (old <? 0) eqn:E; [lia|].
  unfold DIE at 1. unfold bind at 1.
  erewrite bind_eq.
  2:{ apply sys_close_ok with (x := x). cbn. rewrite Hst.
      rewrite lookup_insert_ne by congruence. apply lookup_insert_eq. }
  unfold DIE. cbn. rewrite Hst.
  rewrite delete_insert_ne by congruence.
  now rewrite delete_insert_id.
Qed.

Lemma first_open_stage flag file :
  is_intent flag ->
  (if flag =? O_WRONLY
   then sys_open file (Z.lor O_TRUNC O_WRONLY) 0
   else if flag =? O_APPEND
   then sys_open file (Z.lor O_APPEND O_WRONLY) 0
   else if flag =? O_RDONLY
   then sys_open file flag 0
   else undef)
  = sys_open file (first_open_flags flag) 0.
Proof. intros [->|[->| ->]]; reflexivity. Qed.

(** The first [open] succeeds. *)
Lemma redirect_opens st old file flag w :
  is_intent flag ->
  open_check (world st) file (first_open_flags flag) 0 = inr w ->
  is_Some (fds (proc st) !! old) -> 0 <= old ->
  redirect old file flag st
  = Ret tt
      (mk_state
         (set_fds (<[old := File (default "" file) (first_open_flags flag)]>
                     (fds (proc st))) (proc st)) w).
Proof.
  intros Hflag Hopen Hold Hpos. unfold redirect.
  rewrite (first_open_stage _ _ Hflag).
  erewrite bind_eq by (apply sys_open_ok; exact Hopen).
  pose proof (lowest_free_nonneg (fds (proc st))) as Hnn.
  destruct (_ <? 0) eqn:E; [lia|].
  erewrite bind_eq by reflexivity.
  erewrite redirect_bind_slot with (t := fds (proc st));
    [reflexivity|reflexivity|apply lowest_free_fresh|exact Hold|exact Hpos].
Qed.


(** Both [open] calls fail. *)
Lemma redirect_aborts st old file flag e e' :
  is_intent flag ->
  open_check (world st) file (first_open_flags flag) 0 = inl e ->
  open_check (world st) file create_flags 420 = inl e' ->
  redirect old file flag st
  = Term (wexit EXIT_FAILURE) (log_event (EvDie "open" e') (world st)).
Proof.
  intros Hflag Hfail Hfail'. unfold redirect.
  rewrite (first_open_stage _ _ Hflag).
  erewrite bind_eq by (apply sys_open_fails; exact Hfail).
  change (-1 <? 0) with true. cbv iota.
  unfold bind at 1. unfold bind at 1.
  erewrite sys_open_fails by exact Hfail'. reflexivity.
Qed.

(** X1: [redirect] to an existing file with write permission binds the
    slot to the file and changes nothing else in the descriptor table, so
    the descriptor it opened is closed again; with the overwrite intent
    the file is truncated, with the append intent the world is left as it
    is. *)
Theorem redirect_existing_file st old f r :
  files (world st) !! f = Some (Reg r true) -> f <> "" ->
  is_Some (fds (proc st) !! old) -> 0 <= old ->
  redirect old (Some f) O_WRONLY st
  = Ret tt
      (mk_state
         (set_fds (<[old := File f (Z.lor O_TRUNC O_WRONLY)]> (fds (proc st)))
            (proc st))
         (log_event (EvTrunc f) (world st)))
  /\ redirect old (Some f) O_APPEND st
     = Ret tt
         (mk_state
            (set_fds (<[old := File f (Z.lor O_APPEND O_WRONLY)]>
                        (fds (proc st))) (proc st))
            (world st)).
Proof.
  intros Hf Hne Hold Hpos. apply String.eqb_neq in Hne.
  split.
  - apply (redirect_opens st old (Some f) O_WRONLY);
      [left; reflexivity| |exact Hold|exact Hpos].
    unfold open_check. now rewrite Hne, Hf.
  - apply (redirect_opens st old (Some f) O_APPEND);
      [right; left; reflexivity| |exact Hold|exact Hpos].
    unfold open_check. now rewrite Hne, Hf.
Qed.


(** X3: when the path of a write intent cannot be opened for writing at
    all, [redirect] ends the process with the status of [exit(1)] after
    a diagnostic on [open]; the files are left as they are. *)
Theorem redirect_unwritable_aborts st old path flag :
  unwritable (world st) path ->
  flag = O_WRONLY \/ flag = O_APPEND ->
  exists e,
    redirect old path flag st
    = Term (wexit EXIT_FAILURE) (log_event (EvDie "open" e) (world st)).
Proof.
  intros Hun Hflag.
  assert (Hint : is_intent flag).
  { destruct Hflag as [->| ->]; [left|right; left]; reflexivity. }
  assert (H : exists e e',
             open_check (world st) path (first_open_flags flag) 0 = inl e
             /\ open_check (world st) path create_flags 420 = inl e').
  { destruct path as [f|]; [|exists EFAULT, EFAULT; now split].
    cbn in Hun. unfold open_check.
    destruct (String.eqb f "") eqn:E; [exists ENOENT, ENOENT; now split|].
    destruct Hun as [->|[Hd|[r Hr]]]; [discriminate| |].
    - rewrite Hd. exists EISDIR, EISDIR.
      destruct Hflag as [->| ->]; now split.
    - rewrite Hr. exists EACCES, EACCES.
      destruct Hflag as [->| ->]; now split. }
  destruct H as (e & e' & H1 & H2).
  exists e'. now apply redirect_aborts with (e := e).
Qed.

(** X4: [restore_fd] with an open copy makes the slot refer to what the
    copy refers to, closes the copy and changes no other descriptor and
    nothing else in the state. *)
Theorem restore_fd_consumes_copy st fd c x :
  fds (proc st) !! c = Some x -> c <> fd -> 0 <= fd ->
  exists st',
    restore_fd fd c st = Ret tt st'
    /\ fds (proc st') !! fd = Some x
    /\ fds (proc st') !! c = None
    /\ (forall k, k <> fd -> k <> c ->
                  fds (proc st') !! k = fds (proc st) !! k)
    /\ world st' = world st
    /\ children (proc st') = children (proc st)
    /\ cwd (proc st') = cwd (proc st).
Proof.
  intros Hc Hne Hpos. eexists.
  split; [apply restore_fd_ok with (x := x); [exact Hc|exact Hpos]|]. cbn.
  split; [rewrite lookup_delete_ne by exact Hne; apply lookup_insert_eq|].
  split; [apply lookup_delete_eq|].
  split; [|auto].
  intros k K1 K2.
  now rewrite lookup_delete_ne, lookup_insert_ne by congruence.
Qed.

End RedirectRuns.

(** ** [split_env_command], further *)

Module CStringMore.
Import CString CStringFacts.
Local Open Scope list_scope.

Lemma scan_no_eq (l : list ascii) (p : nat) : ~ In EQ l -> scan l p = None.
Proof.
  revert p. induction l as [|c l IH]; intros p Hno; [reflexivity|].
  cbn. destruct (Ascii.eqb c EQ) eqn:E.
  - apply Ascii.eqb_eq in E. exfalso. apply Hno. now left.
  - apply IH. intros H. apply Hno. now right.
Qed.

Lemma scan_stops (pre post : list ascii) (p : nat) :
  ~ In EQ pre -> scan (pre ++ EQ :: post) p = Some (p + length pre)%nat.
Proof.
  revert p. induction pre as [|c pre IH]; intros p Hno; cbn.
  - f_equal. lia.
  - destruct (Ascii.eqb c EQ) eqn:E.
    + apply Ascii.eqb_eq in E. exfalso. apply Hno. now left.
    + rewrite IH; [f_equal; lia|]. intros H. apply Hno. now right.
Qed.

Lemma split_strings_join (name value : string) :
  ~ In EQ (list_ascii_of_string name) ->
  ~ In NUL (list_ascii_of_string name) ->
  ~ In NUL (list_ascii_of_string value) ->
  split_strings (name ++ "=" ++ value)%string = Some (name, value).
Proof.
  intros Heq Hn Hv.
  unfold split_strings, split_env_command, buffer_of.
  rewrite !list_ascii_app. cbn [list_ascii_of_string app].
  rewrite <- app_assoc. cbn [app].
  rewrite scan_stops by exact Heq. cbn [Nat.add].
  unfold string_at. rewrite insert_middle, drop_middle, drop_0.
  rewrite !upto_nul_app by assumption.
  now rewrite !string_of_list_ascii_of_string.
Qed.

(** X5: a buffer without '=' makes the scan of [split_env_command] read
    past the end of the buffer: the loop has no other bound than the
    '=' it looks for, and the terminator does not stop it. *)
Theorem split_without_eq_overruns (s : string) :
  ~ In EQ (list_ascii_of_string s) ->
  scan (buffer_of s) 0 = None /\ split_strings s = None.
Proof.
  intros Hno.
  assert (H : scan (buffer_of s) 0 = None).
  { apply scan_no_eq. unfold buffer_of. intros H.
    apply in_app_or in H as [H|[H|[]]]; [now apply Hno|discriminate H]. }
  split; [exact H|]. unfold split_strings, split_env_command. now rewrite H.
Qed.

(** X6: splitting the string made of a name without '=', a '=' and a
    value gives back the name and the value, also when the value holds
    further '=' characters. *)
Theorem split_env_command_round_trip (name value : string) :
  ~ In EQ (list_ascii_of_string name) ->
  ~ In NUL (list_ascii_of_string name) ->
  ~ In NUL (list_ascii_of_string value) ->
  split_strings (name ++ "=" ++ value)%string = Some (name, value).
Proof. apply split_strings_join. Qed.

End CStringMore.

(** ** Leaves *)

Section LeafRuns.

Variable image : Proc -> list string -> exec_result.
Variable first_done : list (Z * Z) -> nat.

Lemma restore_own_table (t3 : gmap Z Target) st :
  on_proc (set_fds (fds (proc st))) (on_proc (set_fds t3) st) = st.
Proof. now destruct st as [[] ?]. Qed.

(** [parse_simple] runs its body in a state that differs from the
    caller's in the descriptor table only, where the standard streams
    are as the caller has them, and hands back the caller's table. *)
Lemma parse_simple_run s up st :
  std_open (fds (proc st)) ->
  exists t3,
    t3 !! STDIN_FILENO = fds (proc st) !! STDIN_FILENO
    /\ t3 !! STDOUT_FILENO = fds (proc st) !! STDOUT_FILENO
    /\ t3 !! STDERR_FILENO = fds (proc st) !! STDERR_FILENO
    /\ forall o,
        simple_body image first_done s up (get_word (s_in s))
          (get_word (s_out s)) (get_word (s_err s)) (get_argv s)
          (on_proc (set_fds t3) st) = o ->
        parse_simple image first_done s up st
        = match o with
          | Ret r s4 => Ret r (on_proc (set_fds (fds (proc st))) s4)
          | Term ws w => Term ws w
          | Undef => Undef
          end.
Proof.
  intros ([x0 H0] & [x1 H1] & [x2 H2]).
  set (t := fds (proc st)) in *.
  set (c0 := lowest_free t) in *.
  set (c1 := lowest_free (<[c0 := x0]> t)) in *.
  set (c2 := lowest_free (<[c1 := x1]> (<[c0 := x0]> t))) in *.
  assert (F0 : t !! c0 = None) by apply lowest_free_fresh.
  assert (F1 : <[c0 := x0]> t !! c1 = None) by apply lowest_free_fresh.
  assert (F2 : <[c1 := x1]> (<[c0 := x0]> t) !! c2 = None)
    by apply lowest_free_fresh.
  destruct (saved_table_std t x0 x1 x2 c0 c1 c2 H0 H1 H2 F0 F1 F2)
    as (S0 & S1 & S2).
  exists (saved_table t x0 x1 x2 c0 c1 c2).
  rewrite S0, S1, S2, H0, H1, H2. repeat split.
  intros o Ho. unfold parse_simple.
  rewrite (save_std_run _ st x0 x1 x2 H0 H1 H2). cbv zeta.
  fold t c0 c1 c2.
  pose proof (rebinds_simple_body image first_done s up (get_word (s_in s))
                (get_word (s_out s)) (get_word (s_err s)) (get_argv s)
                (on_proc (set_fds (saved_table t x0 x1 x2 c0 c1 c2)) st))
    as Hreb.
  rewrite Ho in Hreb. unfold bind at 1. rewrite Ho.
  destruct o as [r s4| |]; try reflexivity.
  destruct Hreb as [Hk _]; [split; cbn; eauto|]. cbn in Hk.
  rewrite (restore_std_run t x0 x1 x2 c0 c1 c2 H0 H1 H2 F0 F1 F2
             (fds (proc s4))); [reflexivity| |reflexivity].
  intros k K0 K1 K2. now apply Hk.
Qed.

(** X7: [exit] and [quit] return the sentinel and leave the whole state
    as it is, whatever redirections the leaf carries: no file is opened,
    created or truncated and no process is forked. *)
Theorem exit_leaves_state s up st :
  word_string (verb s) = "exit" \/ word_string (verb s) = "quit" ->
  std_open (fds (proc st)) ->
  parse_simple image first_done s up st = Ret SHELL_EXIT st.
Proof.
  intros Hverb Hopen.
  destruct (parse_simple_run s up st Hopen) as (t3 & _ & _ & _ & Hrun).
  rewrite (Hrun _ eq_refl). unfold simple_body, get_argv. cbn [hd].
  destruct Hverb as [-> | ->]; cbn; now rewrite restore_own_table.
Qed.

Lemma plain_body s up file_in args st :
  plain s ->
  String.eqb "exit" (hd "" args) = false ->
  String.eqb "quit" (hd "" args) = false ->
  simple_body image first_done s up file_in (get_word (s_out s))
    (get_word (s_err s)) args st
  = (let arg0 := hd "" args in
     if String.eqb "cd" arg0 then
       match params s with
       | [] => ret EXIT_SUCCESS
       | dir :: _ =>
           let* r := shell_cd dir in
           if r <? 0 then
             let* e := get_errno in
             let* _ := sys_write STDERR_FILENO (strerror e ++ newline) in
             ret EXIT_FAILURE
           else ret r
       end
     else if String.eqb "pwd" arg0 then
       let* d := sys_getcwd 200 in
       match d with
       | Some d =>
           let* _ := sys_write STDOUT_FILENO (d ++ newline) in
           ret EXIT_SUCCESS
       | None => undef
       end
     else if is_assignment s then
       match CString.split_strings arg0 with
       | Some (var, value) =>
           let* r := sys_setenv var value in
           if r <? 0 then
             let* e := get_errno in
             let* _ := sys_write STDERR_FILENO (strerror e ++ newline) in
             ret EXIT_FAILURE
           else ret r
       | None => undef
       end
     else run_external image first_done s up file_in args) st.
Proof.
  intros (Hout & Herr & Hio) He Hq. unfold simple_body. cbv zeta.
  rewrite He, Hq. cbn [orb].
  erewrite bind_eq by (now apply no_redirection). reflexivity.
Qed.


Lemma pwd_run s up st x1 :
  word_string (verb s) = "pwd" -> plain s ->
  std_open (fds (proc st)) ->
  fds (proc st) !! STDOUT_FILENO = Some x1 ->
  parse_simple image first_done s up st
  = if Z.of_nat (String.length (cwd (proc st))) <? 200
    then Ret EXIT_SUCCESS
           (on_world (log_event (EvWrite x1 (cwd (proc st) ++ newline))) st)
    else Undef.
Proof.
  intros Hverb Hplain Hopen Hx1.
  destruct (parse_simple_run s up st Hopen) as (t3 & _ & T1 & _ & Hrun).
  rewrite (Hrun _ eq_refl).
  rewrite plain_body;
    [|exact Hplain|unfold get_argv; cbn [hd]; now rewrite Hverb..].
  unfold get_argv. cbn [hd]. rewrite Hverb. cbn [String.eqb Ascii.eqb].
  cbn.
  unfold sys_getcwd, bind. cbn.
  destruct (_ <? 200); [|reflexivity].
  unfold sys_write. cbn. rewrite T1, Hx1. cbn.
  f_equal. now destruct st as [[] ?].
Qed.


(** X9: the built-in [pwd], without redirection, writes the working
    directory and a newline to what stdout refers to, returns success
    and changes nothing else; when the name of the directory does not
    fit the 200 bytes given to [getcwd], a null pointer is handed to
    [fprintf]. *)
Theorem pwd_writes_directory s up st x1 :
  word_string (verb s) = "pwd" -> plain s ->
  std_open (fds (proc st)) ->
  fds (proc st) !! STDOUT_FILENO = Some x1 ->
  parse_simple image first_done s up st
  = if Z.of_nat (String.length (cwd (proc st))) <? 200
    then Ret EXIT_SUCCESS
           (on_world (log_event (EvWrite x1 (cwd (proc st) ++ newline))) st)
    else Undef.
Proof. apply pwd_run. Qed.


(** *** Assignments *)

Lemma concat_cons (a : string) (l : list string) :
  String.concat "" (a :: l) = a ++ String.concat "" l.
Proof.
  destruct l as [|b l]; cbn [String.concat].
  - induction a as [|c a IH]; [reflexivity|].
    change (String c a ++ "") with (String c (a ++ "")). now rewrite <- IH.
  - reflexivity.
Qed.

Lemma literal_is_not lit a :
  In CString.EQ (list_ascii_of_string a) ->
  ~ In CString.EQ (list_ascii_of_string lit) ->
  String.eqb lit a = false.
Proof.
  intros Ha Hlit. destruct (String.eqb_spec lit a) as [->|]; [|reflexivity].
  contradiction.
Qed.

Lemma has_eq_false name :
  ~ In CString.EQ (list_ascii_of_string name) -> has_eq name = false.
Proof.
  intros Hno. unfold has_eq.
  destruct (existsb _ _) eqn:E; [|reflexivity].
  apply existsb_exists in E as (c & Hc & Heq).
  apply Ascii.eqb_eq in Heq. subst c. contradiction.
Qed.

Lemma assign_run s up st rest x2 :
  let name := w_string (verb s) in
  let value := String.concat "" rest in
  next_parts (verb s) = "=" :: rest ->
  ~ In CString.EQ (list_ascii_of_string name) ->
  ~ In CString.NUL (list_ascii_of_string name) ->
  ~ In CString.NUL (list_ascii_of_string value) ->
  plain s -> std_open (fds (proc st)) ->
  fds (proc st) !! STDERR_FILENO = Some x2 ->
  parse_simple image first_done s up st
  = if String.eqb name ""
    then Ret EXIT_FAILURE
           (on_world (log_event (EvWrite x2 (strerror EINVAL ++ newline)))
              (on_proc (set_errno EINVAL) st))
    else Ret 0 (on_proc (set_env (<[name := value]> (env (proc st)))) st).
Proof.
  intros name value Hparts Heq Hn Hv Hplain Hopen Hx2.
  assert (Harg : hd "" (get_argv s) = name ++ "=" ++ value).
  { unfold get_argv, word_string. cbn [hd]. rewrite Hparts.
    now rewrite concat_cons. }
  assert (Hin : In CString.EQ (list_ascii_of_string (hd "" (get_argv s)))).
  { rewrite Harg, !CStringFacts.list_ascii_app. apply in_or_app. right.
    now left. }
  assert (Hlit : forall lit,
             ~ In CString.EQ (list_ascii_of_string lit) ->
             String.eqb lit (hd "" (get_argv s)) = false).
  { intros lit. now apply literal_is_not. }
  assert (Hno : forall lit, lit = "exit" \/ lit = "quit" \/ lit = "cd"
                            \/ lit = "pwd" ->
                            String.eqb lit (hd "" (get_argv s)) = false).
  { intros lit Hl. apply Hlit.
    destruct Hl as [->|[->|[->| ->]]]; cbn; intros H;
      repeat (destruct H as [H|H]; [discriminate H|]); exact H. }
  destruct (parse_simple_run s up st Hopen) as (t3 & _ & _ & T2 & Hrun).
  rewrite (Hrun _ eq_refl).
  rewrite plain_body by auto. cbv zeta.
  rewrite !Hno by auto.
  unfold is_assignment. rewrite Hparts, String.eqb_refl.
  rewrite Harg, (CStringMore.split_strings_join name value Heq Hn Hv).
  unfold sys_setenv, bind. cbn [proc on_proc].
  rewrite (has_eq_false name Heq), orb_false_r.
  destruct (String.eqb name "") eqn:E; cbn.
  - unfold sys_write. cbn. rewrite T2, Hx2. cbn.
    now destruct st as [[] ?].
  - now destruct st as [[] ?].
Qed.

(** X11: an assignment [name=value], without redirection and with a
    name that is not empty, sets the variable in the environment of the
    shell, so that looking the name up afterwards gives the value; it
    returns 0, writes nothing and forks no process. *)
Theorem assignment_sets_variable s up st rest x2 :
  let name := w_string (verb s) in
  let value := String.concat "" rest in
  next_parts (verb s) = "=" :: rest ->
  name <> "" ->
  ~ In CString.EQ (list_ascii_of_string name) ->
  ~ In CString.NUL (list_ascii_of_string name) ->
  ~ In CString.NUL (list_ascii_of_string value) ->
  plain s -> std_open (fds (proc st)) ->
  fds (proc st) !! STDERR_FILENO = Some x2 ->
  exists st',
    parse_simple image first_done s up st = Ret 0 st'
    /\ env (proc st') !! name = Some value
    /\ (forall other, other <> name ->
                      env (proc st') !! other = env (proc st) !! other)
    /\ world st' = world st
    /\ children (proc st') = children (proc st).
Proof.
  intros name value Hparts Hne Heq Hn Hv Hplain Hopen Hx2.
  pose proof (assign_run s up st rest x2 Hparts Heq Hn Hv Hplain Hopen Hx2)
    as H.
  cbv zeta in H. fold name value in H.
  apply String.eqb_neq in Hne. rewrite Hne in H.
  eexists. split; [exact H|]. cbn.
  split; [apply lookup_insert_eq|].
  split; [|auto].
  intros other Ho. now apply lookup_insert_ne.
Qed.

(** X12: an assignment with an empty name is refused by [setenv]: the
    leaf writes the message of [EINVAL] to what stderr refers to and
    returns failure, and the environment is unchanged. *)
Theorem assignment_empty_name_fails s up st rest x2 :
  let value := String.concat "" rest in
  w_string (verb s) = "" ->
  next_parts (verb s) = "=" :: rest ->
  ~ In CString.NUL (list_ascii_of_string value) ->
  plain s -> std_open (fds (proc st)) ->
  fds (proc st) !! STDERR_FILENO = Some x2 ->
  parse_simple image first_done s up st
  = Ret EXIT_FAILURE
      (on_world (log_event (EvWrite x2 ("Invalid argument" ++ newline)))
         (on_proc (set_errno EINVAL) st)).
Proof.
  intros value Hname Hparts Hv Hplain Hopen Hx2.
  pose proof (assign_run s up st rest x2 Hparts) as H.
  cbv zeta in H. rewrite Hname in H.
  apply H; auto; cbn; tauto.
Qed.

(** *** External commands *)

Lemma runs_external_tests s a :
  runs_external s a = true ->
  String.eqb "exit" a = false /\ String.eqb "quit" a = false
  /\ String.eqb "cd" a = false /\ String.eqb "pwd" a = false
  /\ is_assignment s = false.
Proof.
  unfold runs_external. intros H.
  repeat (apply andb_prop in H as [H ?]).
  repeat match goal with
         | H : negb _ = true |- _ => apply negb_true_iff in H
         end.
  auto.
Qed.

(** A leaf without output redirection that runs an external command, in
    a shell with no unwaited child, outside the right side of a pipe. *)
Lemma external_plain_run s up st t3 ws w :
  runs_external s (hd "" (get_argv s)) = true ->
  plain s ->
  children (proc st) = [] ->
  up <> Up OP_PIPE IsSelf -> up <> Up OP_PIPE IsNull ->
  child_end (external_child image s (get_word (s_in s)) (get_argv s)
               (child_state (on_proc (set_fds t3) st))) = Some (ws, w) ->
  simple_body image first_done s up (get_word (s_in s))
    (get_word (s_out s)) (get_word (s_err s)) (get_argv s)
    (on_proc (set_fds t3) st)
  = Ret (WEXITSTATUS ws)
      (mk_state (set_children [] (proc (on_proc (set_fds t3) st))) w).
Proof.
  intros Hext Hplain Hno Hself Hnull Hc.
  destruct (runs_external_tests _ _ Hext) as (E1 & E2 & E3 & E4 & E5).
  rewrite plain_body by assumption. cbv zeta.
  rewrite E3, E4, E5.
  now apply run_external_waits.
Qed.

(** X13: when [execvp] fails, the leaf returns failure; the child writes
    the message naming the command to what stderr refers to when the
    error is that the program was not found, and nothing for any other
    error. The descriptor table of the shell is as before and no child
    is left unwaited. *)
Theorem command_not_run s up st e x2 :
  (forall q, image q (get_argv s) = ExecFails e) ->
  runs_external s (hd "" (get_argv s)) = true ->
  s_in s = None -> plain s ->
  std_open (fds (proc st)) ->
  fds (proc st) !! STDERR_FILENO = Some x2 ->
  children (proc st) = [] ->
  up <> Up OP_PIPE IsSelf -> up <> Up OP_PIPE IsNull ->
  exists st',
    parse_simple image first_done s up st = Ret EXIT_FAILURE st'
    /\ log (world st')
       = (log (world st)
          ++ if e =? ENOENT
             then [EvWrite x2 ("Execution failed for '"
                                 ++ hd "" (get_argv s) ++ "'" ++ newline)]
             else [])%list
    /\ fds (proc st') = fds (proc st)
    /\ children (proc st') = []
    /\ files (world st') = files (world st).
Proof.
  intros Himg Hext Hin Hplain Hopen Hx2 Hno Hself Hnull.
  destruct (parse_simple_run s up st Hopen) as (t3 & _ & _ & T2 & Hrun).
  rewrite (Hrun _ eq_refl).
  destruct (e =? ENOENT) eqn:E.
  - erewrite external_plain_run; try assumption.
    2:{ unfold external_child. rewrite Hin. cbn [get_word non_null].
        erewrite bind_eq by reflexivity.
        unfold sys_execvp. rewrite Himg, E.
        unfold bind, sys_write. cbn. rewrite T2, Hx2. reflexivity. }
    eexists. split; [reflexivity|]. cbn. auto.
  - erewrite external_plain_run; try assumption.
    2:{ unfold external_child. rewrite Hin. cbn [get_word non_null].
        erewrite bind_eq by reflexivity.
        unfold sys_execvp. rewrite Himg, E. reflexivity. }
    eexists. split; [reflexivity|]. cbn. rewrite app_nil_r. auto.
Qed.

(** X14: the redirection of the input of an external command is made in
    the child only: the program runs with stdin on the file opened for
    reading and with the stdout and stderr of the shell, while the
    descriptor table of the shell, stdin included, is as before. *)
Theorem input_redirection_in_child s up st win code r wr x0 x1 x2 :
  let f := word_string win in
  (forall q, image q (get_argv s) = Exits code) ->
  runs_external s (hd "" (get_argv s)) = true ->
  s_in s = Some win -> plain s ->
  files (world st) !! f = Some (Reg true wr) -> f <> "" ->
  fds (proc st) !! STDIN_FILENO = Some x0 ->
  fds (proc st) !! STDOUT_FILENO = Some x1 ->
  fds (proc st) !! STDERR_FILENO = Some x2 ->
  children (proc st) = [] ->
  up <> Up OP_PIPE IsSelf -> up <> Up OP_PIPE IsNull ->
  r = Z.land code 255 ->
  exists st',
    parse_simple image first_done s up st = Ret r st'
    /\ log (world st')
       = (log (world st)
          ++ [EvExec (next_pid (world st)) (get_argv s)
                (Some (File f O_RDONLY)) (Some x1) (Some x2)])%list
    /\ fds (proc st') = fds (proc st)
    /\ files (world st') = files (world st).
Proof.
  intros f Himg Hext Hin Hplain Hf Hne H0 H1 H2 Hno Hself Hnull ->.
  subst f.
  assert (Hopen : std_open (fds (proc st))) by (repeat split; eauto).
  destruct (parse_simple_run s up st Hopen) as (t3 & T0 & T1 & T2 & Hrun).
  rewrite (Hrun _ eq_refl).
  apply String.eqb_neq in Hne.
  erewrite external_plain_run; try assumption.
  2:{ unfold external_child. rewrite Hin. cbn [get_word non_null fmap
                                                option_fmap option_map].
      erewrite bind_eq.
      2:{ apply (redirect_opens _ STDIN_FILENO (Some (word_string win))
                   O_RDONLY (world (child_state (on_proc (set_fds t3) st))));
            [right; right; reflexivity| |cbn; rewrite T0, H0; eauto
            |unfold STDIN_FILENO; lia].
          unfold open_check. cbn [child_state world files on_proc].
          now rewrite Hne, Hf. }
      unfold sys_execvp. rewrite Himg. reflexivity. }
  rewrite WEXITSTATUS_wexit.
  eexists. split; [reflexivity|]. cbn.
  rewrite lookup_insert_eq.
  rewrite !lookup_insert_ne by (unfold STDIN_FILENO, STDOUT_FILENO,
                                 STDERR_FILENO; lia).
  rewrite T1, T2, H1, H2. auto.
Qed.

(** *** Output redirection *)

Lemma body_after_flags s up file_in file_out file_err args st :
  String.eqb "exit" (hd "" args) = false ->
  String.eqb "quit" (hd "" args) = false ->
  String.eqb "pwd" (hd "" args) = true ->
  simple_body image first_done s up file_in file_out file_err args st
  = (let* _ := apply_io_flags s file_out file_err in
     let* d := sys_getcwd 200 in
     match d with
     | Some d =>
         let* _ := sys_write STDOUT_FILENO (d ++ newline) in
         ret EXIT_SUCCESS
     | None => undef
     end) st.
Proof.
  intros He Hq Hp. unfold simple_body. cbv zeta. rewrite He, Hq. cbn [orb].
  apply String.eqb_eq in Hp. rewrite <- Hp. reflexivity.
Qed.

(** X15: [pwd] with its output redirected, in overwrite mode, to an
    existing file with write permission truncates the file and writes the
    working directory to the file and not to what stdout referred to;
    afterwards the shell has its own stdout again. *)
Theorem pwd_to_existing_file s up st wout r :
  let f := word_string wout in
  word_string (verb s) = "pwd" ->
  s_out s = Some wout -> s_err s = None -> io_flags s = 0 ->
  files (world st) !! f = Some (Reg r true) -> f <> "" ->
  Z.of_nat (String.length (cwd (proc st))) < 200 ->
  std_open (fds (proc st)) ->
  parse_simple image first_done s up st
  = Ret EXIT_SUCCESS
      (on_world
         (fun w =>
            log_event
              (EvWrite (File f (Z.lor O_TRUNC O_WRONLY))
                 (cwd (proc st) ++ newline))
              (log_event (EvTrunc f) w)) st).
Proof.
  intros f Hverb Hout Herr Hio Hf Hne Hlen Hopen. subst f.
  destruct (parse_simple_run s up st Hopen) as (t3 & _ & T1 & _ & Hrun).
  rewrite (Hrun _ eq_refl).
  rewrite body_after_flags;
    [|unfold get_argv; cbn [hd]; now rewrite Hverb..].
  apply String.eqb_neq in Hne.
  erewrite bind_eq.
  2:{ unfold apply_io_flags. cbv zeta. rewrite Hio, Hout, Herr.
      cbn [Z.eqb non_null orb andb get_word fmap option_fmap option_map].
      erewrite bind_eq.
      2:{ apply (redirect_opens _ STDOUT_FILENO (Some (word_string wout))
                   O_WRONLY (log_event (EvTrunc (word_string wout))
                               (world st)));
            [left; reflexivity| |cbn; rewrite T1; apply Hopen
            |unfold STDOUT_FILENO; lia].
          unfold open_check. cbn [world on_proc].
          now rewrite Hne, Hf. }
      reflexivity. }
  unfold sys_getcwd, bind. cbn [proc cwd set_fds on_proc].
  apply Z.ltb_lt in Hlen. rewrite Hlen.
  unfold sys_write. cbn. rewrite lookup_insert_eq. cbn.
  f_equal. now destruct st as [[] ?].
Qed.


(** Two redirections with a write intent, one after the other, on two
    different slots, to files that exist and can be written. *)
Lemma redirect_pair st a b fa fb fla flb ra rb :
  fla = O_WRONLY \/ fla = O_APPEND -> flb = O_WRONLY \/ flb = O_APPEND ->
  files (world st) !! fa = Some (Reg ra true) ->
  files (world st) !! fb = Some (Reg rb true) ->
  fa <> "" -> fb <> "" -> a <> b -> 0 <= a -> 0 <= b ->
  is_Some (fds (proc st) !! a) -> is_Some (fds (proc st) !! b) ->
  (let* _ := redirect a (Some fa) fla in redirect b (Some fb) flb) st
  = Ret tt
      (mk_state
         (set_fds (<[b := File fb (first_open_flags flb)]>
                     (<[a := File fa (first_open_flags fla)]>
                        (fds (proc st)))) (proc st))
         (mk_world (files (world st)) (next_pid (world st))
            (next_pipe (world st))
            (log (world st)
             ++ (if fla =? O_WRONLY then [EvTrunc fa] else [])
             ++ (if flb =? O_WRONLY then [EvTrunc fb] else [])))).
Proof.
  intros Hfla Hflb Hfa Hfb Hna Hnb Hab Ha Hb Oa Ob.
  apply String.eqb_neq in Hna. apply String.eqb_neq in Hnb.
  assert (Ia : is_intent fla).
  { destruct Hfla as [->| ->]; [left|right; left]; reflexivity. }
  assert (Ib : is_intent flb).
  { destruct Hflb as [->| ->]; [left|right; left]; reflexivity. }
  set (wa := if fla =? O_WRONLY then log_event (EvTrunc fa) (world st)
             else world st).
  set (wb := if flb =? O_WRONLY then log_event (EvTrunc fb) wa else wa).
  erewrite bind_eq.
  2:{ apply (redirect_opens st a (Some fa) fla wa Ia); [|exact Oa|exact Ha].
      unfold open_check. rewrite Hna, Hfa. subst wa.
      destruct Hfla as [->| ->]; reflexivity. }
  erewrite (redirect_opens _ b (Some fb) flb wb Ib);
    [| |cbn; rewrite lookup_insert_ne by exact Hab; exact Ob|exact Hb].
  2:{ unfold open_check. cbn [world]. rewrite Hnb.
      replace (files wa) with (files (world st))
        by (subst wa; destruct (fla =? O_WRONLY); reflexivity).
      rewrite Hfb. subst wb. destruct Hflb as [->| ->]; reflexivity. }
  cbn. f_equal. f_equal. subst wb wa.
  destruct (world st) as [fs np npi lg].
  destruct (fla =? O_WRONLY), (flb =? O_WRONLY); unfold log_event; cbn;
    rewrite <- ?app_assoc, ?app_nil_r; reflexivity.
Qed.

(** X17: the append marks of [io_flags]. With both streams redirected to
    files that exist and can be written, bit 0 of [io_flags] puts stdout
    in append mode and bit 1 puts stderr in append mode; a stream whose
    bit is not set is opened in truncate mode and its file truncated. No
    other descriptor changes and no file is created. *)
Theorem append_marks_respected s st wout werr ro re :
  let fo := word_string wout in
  let fe := word_string werr in
  let mode (append : bool) :=
    if append then Z.lor O_APPEND O_WRONLY else Z.lor O_TRUNC O_WRONLY in
  s_out s = Some wout -> s_err s = Some werr ->
  1 <= io_flags s <= 3 ->
  files (world st) !! fo = Some (Reg ro true) ->
  files (world st) !! fe = Some (Reg re true) ->
  fo <> "" -> fe <> "" ->
  open12 (fds (proc st)) ->
  exists st',
    apply_io_flags s (get_word (s_out s)) (get_word (s_err s)) st = Ret tt st'
    /\ fds (proc st') !! STDOUT_FILENO
       = Some (File fo (mode (Z.testbit (io_flags s) 0)))
    /\ fds (proc st') !! STDERR_FILENO
       = Some (File fe (mode (Z.testbit (io_flags s) 1)))
    /\ (forall k, k <> STDOUT_FILENO -> k <> STDERR_FILENO ->
                  fds (proc st') !! k = fds (proc st) !! k)
    /\ log (world st')
       = (log (world st)
          ++ (if Z.testbit (io_flags s) 0 then [] else [EvTrunc fo])
          ++ (if Z.testbit (io_flags s) 1 then [] else [EvTrunc fe]))%list
    /\ files (world st') = files (world st).
Proof.
  intros fo fe mode Hout Herr Hfl Hfo Hfe Hno Hne [O1 O2].
  subst fo fe mode.
  assert (Hcase : io_flags s = 1 \/ io_flags s = 2 \/ io_flags s = 3) by lia.
  unfold apply_io_flags. cbv zeta. rewrite Hout, Herr.
  cbn [non_null get_word fmap option_fmap option_map].
  destruct Hcase as [-> |[-> | ->]]; cbn [Z.eqb Pos.eqb].
  - erewrite (redirect_pair st STDERR_FILENO STDOUT_FILENO _ _
                O_WRONLY O_APPEND re ro);
      [|left; reflexivity|right; reflexivity|exact Hfe|exact Hfo|exact Hne
       |exact Hno|discriminate|unfold STDERR_FILENO; lia
       |unfold STDOUT_FILENO; lia|exact O2|exact O1].
    eexists. split; [reflexivity|]. cbn.
    split; [apply lookup_insert_eq|].
    split; [rewrite lookup_insert_ne by discriminate;
            apply lookup_insert_eq|].
    split; [intros k K1 K2; now rewrite !lookup_insert_ne by congruence|].
    split; reflexivity.
  - erewrite (redirect_pair st STDOUT_FILENO STDERR_FILENO _ _
                O_WRONLY O_APPEND ro re);
      [|left; reflexivity|right; reflexivity|exact Hfo|exact Hfe|exact Hno
       |exact Hne|discriminate|unfold STDOUT_FILENO; lia
       |unfold STDERR_FILENO; lia|exact O1|exact O2].
    eexists. split; [reflexivity|]. cbn.
    split; [rewrite lookup_insert_ne by discriminate;
            apply lookup_insert_eq|].
    split; [apply lookup_insert_eq|].
    split; [intros k K1 K2; now rewrite !lookup_insert_ne by congruence|].
    split; reflexivity.
  - erewrite (redirect_pair st STDOUT_FILENO STDERR_FILENO _ _
                O_APPEND O_APPEND ro re);
      [|right; reflexivity|right; reflexivity|exact Hfo|exact Hfe|exact Hno
       |exact Hne|discriminate|unfold STDOUT_FILENO; lia
       |unfold STDERR_FILENO; lia|exact O1|exact O2].
    eexists. split; [reflexivity|]. cbn.
    split; [rewrite lookup_insert_ne by discriminate;
            apply lookup_insert_eq|].
    split; [apply lookup_insert_eq|].
    split; [intros k K1 K2; now rewrite !lookup_insert_ne by congruence|].
    split; reflexivity.
Qed.

End LeafRuns.

(** ** Trees *)

Section TreeRuns.

Variable image : Proc -> list string -> exec_result.
Variable first_done : list (Z * Z) -> nat.

(** X18: the evaluation of any command tree that returns, in a process
    whose standard streams are open, leaves the whole descriptor table as
    it found it: no descriptor opened by a redirection, by a pipe or to
    save a standard stream stays open, and no stream stays redirected. *)
Theorem evaluation_keeps_descriptor_table c up st r st' :
  std_open (fds (proc st)) ->
  parse_command image first_done c up st = Ret r st' ->
  fds (proc st') = fds (proc st).
Proof.
  intros Hopen H.
  pose proof (parse_command_keeps_table image first_done c up st) as HK.
  rewrite H in HK. exact (HK Hopen).
Qed.

Lemma WEXITSTATUS_range ws : 0 <= WEXITSTATUS ws <= 255.
Proof.
  unfold WEXITSTATUS. rewrite Z.shiftr_land.
  change (Z.shiftr 65280 8) with (Z.ones 8).
  rewrite Z.land_ones by lia.
  pose proof (Z.mod_pos_bound (Z.shiftr ws 8) (2 ^ 8) ltac:(lia)). lia.
Qed.

(** X19: what a [Pipe] node returns is always a translated wait status,
    a value from 0 to 255: never the shell-exit sentinel, also when its
    right side is [exit], and never a process id. *)
Theorem pipe_returns_a_status A B up st v st' :
  parse_command image first_done (Node OP_PIPE A B) up st = Ret v st' ->
  0 <= v <= 255 /\ v <> SHELL_EXIT.
Proof.
  intros H. cbn [parse_command] in H.
  apply bind_Ret in H as (x & stB & _ & H).
  apply bind_Ret in H as (p & st2 & _ & H).
  unfold pipe_suffix in H.
  apply bind_Ret in H as (o1 & s3 & _ & H).
  apply bind_Ret in H as (o2 & s4 & _ & H).
  apply bind_Ret in H as ([] & s5 & _ & H).
  apply bind_Ret in H as ([] & s6 & _ & H).
  apply bind_Ret in H as ([] & s7 & _ & H).
  destruct o2 as [ws|]; [|discriminate].
  inversion H; subst.
  pose proof (WEXITSTATUS_range ws). unfold SHELL_EXIT. lia.
Qed.

(** X20: in [Pipe(A, B)], when the value B returned is not something the
    second [waitpid] finds a child for, as when B is a built-in that
    returns 0, no status is stored and the value the node returns is
    read from an uninitialised variable. *)
Theorem pipe_status_uninitialised A B up st x stB r st2 o1 st3 st4 :
  std_open (fds (proc st)) ->
  pipe_prefix (parse_command image first_done A (up_of_cmd1 OP_PIPE B)) st
  = Ret x stB ->
  parse_command image first_done B (up_of_cmd2 OP_PIPE) stB = Ret r st2 ->
  sys_waitpid first_done (pid_first x) st2 = Ret o1 st3 ->
  sys_waitpid first_done r st3 = Ret None st4 ->
  parse_command image first_done (Node OP_PIPE A B) up st = Undef.
Proof.
  intros Hopen Hp HB W1 W2.
  destruct (pipe_prefix_inv _ _ _ _ Hopen Hp)
    as (B0 & B1 & B2 & _ & _ & _ & Hres).
  assert (HopenB : std_open (fds (proc stB))).
  { destruct Hopen as (O0 & O1 & O2). unfold std_open.
    rewrite B0, B1, B2. eauto. }
  pose proof (parse_command_keeps_table image first_done B
                (up_of_cmd2 OP_PIPE) stB) as HK.
  rewrite HB in HK. specialize (HK HopenB).
  cbn [parse_command].
  rewrite (bind_eq _ _ _ _ _ Hp), (bind_eq _ _ _ _ _ HB).
  rewrite (pipe_suffix_run first_done x r (fds (proc st)) st2 o1 st3
             None st4); auto.
  intros T k s4 Hs4. apply Hres. congruence.
Qed.

(** The descriptor table of the parent when [case OP_PIPE] recurses into
    [cmd2]. *)
Lemma pipe_prefix_targets eval_cmd1 st x stB :
  std_open (fds (proc st)) ->
  pipe_prefix eval_cmd1 st = Ret x stB ->
  (forall k y,
      fds (proc stB) !! k = Some y ->
      (k = STDIN_FILENO /\ y = PipeRd (next_pipe (world st)))
      \/ exists k', fds (proc st) !! k' = Some y)
  /\ same_place st stB.
Proof.
  intros ([x0 H0] & [x1 H1] & [x2 H2]) H.
  unfold pipe_prefix in H.
  rewrite (save_std_run _ st x0 x1 x2 H0 H1 H2) in H. cbv zeta in H.
  set (t := fds (proc st)) in *.
  set (c0 := lowest_free t) in *.
  set (c1 := lowest_free (<[c0 := x0]> t)) in *.
  set (c2 := lowest_free (<[c1 := x1]> (<[c0 := x0]> t))) in *.
  clearbody c0 c1 c2.
  set (t3 := saved_table t x0 x1 x2 c0 c1 c2) in *.
  assert (Ht3 : forall k y, t3 !! k = Some y -> exists k', t !! k' = Some y).
  { intros k y. unfold t3, saved_table.
    rewrite !lookup_insert. repeat case_decide; intros Hy;
      inversion Hy; subst; eauto. }
  erewrite bind_eq in H by reflexivity. cbn in H.
  set (id := next_pipe (world st)) in *.
  set (rd := lowest_free t3) in *.
  set (wr := lowest_free (<[rd := PipeRd id]> t3)) in *.
  assert (Frd : t3 !! rd = None) by apply lowest_free_fresh.
  assert (Fwr : <[rd := PipeRd id]> t3 !! wr = None)
    by apply lowest_free_fresh.
  clearbody rd wr.
  apply lookup_insert_None in Fwr as [Fwr Nrw].
  assert (S0 : is_Some (t3 !! 0)).
  { unfold t3, saved_table. rewrite !lookup_insert_is_Some'.
    unfold STDIN_FILENO in H0. eauto. }
  assert (Nrd : rd <> 0) by (intros ->; destruct S0; congruence).
  assert (Nwr : wr <> 0) by (intros ->; destruct S0; congruence).
  apply bind_Ret in H as (p & st6 & Hfork & H).
  unfold fork_child in Hfork.
  destruct (child_end _) as [[ws w]|]; [|discriminate].
  inversion Hfork; subst p st6; clear Hfork.
  erewrite bind_eq in H.
  2:{ apply sys_dup2_ok with (x := PipeRd id); [|unfold STDIN_FILENO; lia].
      cbn. rewrite lookup_insert_ne by congruence. apply lookup_insert_eq. }
  unfold STDIN_FILENO in H. cbn in H.
  unfold bind at 1, DIE at 1 in H. cbn in H.
  erewrite bind_eq in H.
  2:{ apply sys_close_ok with (x := PipeRd id). cbn.
      rewrite !lookup_insert_ne by congruence. apply lookup_insert_eq. }
  unfold bind at 1, DIE at 1 in H. cbn in H.
  erewrite bind_eq in H.
  2:{ apply sys_close_ok with (x := PipeWr id). cbn.
      rewrite lookup_delete_ne, lookup_insert_ne by congruence.
      apply lookup_insert_eq. }
  unfold bind at 1, DIE at 1 in H. cbn in H.
  inversion H; subst x stB; clear H. cbn.
  split; [|split; reflexivity].
  intros k y.
  destruct (decide (k = wr)) as [->|]; [now rewrite lookup_delete_eq|].
  rewrite lookup_delete_ne by congruence.
  destruct (decide (k = rd)) as [->|]; [now rewrite lookup_delete_eq|].
  rewrite lookup_delete_ne by congruence.
  unfold STDIN_FILENO.
  destruct (decide (k = 0)) as [->|].
  - rewrite lookup_insert_eq. intros Hy. inversion Hy. now left.
  - rewrite !lookup_insert_ne by congruence. intros Hy. right.
    now apply (Ht3 k).
Qed.

(** X21: while the right side of a pipe is evaluated, the only
    descriptor the shell holds on the pipe is its stdin, the read end:
    every other descriptor refers to something the shell had open before
    the node, so the write end is held by the left child alone and the
    right side sees the end of the data when the left child is done. The
    working directory and the environment are those the shell had: what
    the left side does to them stays in the child. *)
Theorem pipe_parent_holds_read_end_only A B st x stB :
  std_open (fds (proc st)) ->
  (forall k, fds (proc st) !! k <> Some (PipeWr (next_pipe (world st)))) ->
  pipe_prefix (parse_command image first_done A (up_of_cmd1 OP_PIPE B)) st
  = Ret x stB ->
  (forall k, fds (proc stB) !! k <> Some (PipeWr (next_pipe (world st))))
  /\ (forall k y,
        fds (proc stB) !! k = Some y -> k <> STDIN_FILENO ->
        exists k', fds (proc st) !! k' = Some y)
  /\ cwd (proc stB) = cwd (proc st)
  /\ env (proc stB) = env (proc st).
Proof.
  intros Hopen Hfresh Hp.
  destruct (pipe_prefix_targets _ _ _ _ Hopen Hp) as (Ht & Hcwd & Henv).
  split; [|split; [|split; assumption]].
  - intros k Hk. destruct (Ht _ _ Hk) as [[_ Hy]|[k' Hk']].
    + discriminate Hy.
    + exact (Hfresh k' Hk').
  - intros k y Hk Hne. destruct (Ht _ _ Hk) as [[Hk0 _]|Hex];
      [contradiction|exact Hex].
Qed.

End TreeRuns.

(** ** A pipe into an external command *)

Section PipeRuns.

Variable image : Proc -> list string -> exec_result.
Variable first_done : list (Z * Z) -> nat.

Lemma grows_pipe_child eval_cmd1 rd wr c0 c1 c2 :
  grows eval_cmd1 -> grows (pipe_child eval_cmd1 rd wr c0 c1 c2).
Proof.
  intros He. unfold pipe_child.
  repeat first
    [ exact He | apply grows_ret | apply grows_DIE | apply grows_dup2
    | apply grows_close | apply grows_restore_fd
    | apply grows_bind; [|intros ?] ].
Qed.

(** The fork of the left side uses up at least one process id. *)
Lemma pipe_prefix_pid eval_cmd1 st x stB :
  grows eval_cmd1 ->
  pipe_prefix eval_cmd1 st = Ret x stB ->
  next_pid (world st) < next_pid (world stB).
Proof.
  intros He H. unfold pipe_prefix in H.
  apply bind_Ret in H as (c0 & s1 & D0 & H).
  apply bind_Ret in H as (c1 & s2 & D1 & H).
  apply bind_Ret in H as (c2 & s3 & D2 & H).
  apply bind_Ret in H as (pp & s4 & Hpipe & H).
  apply bind_Ret in H as (p & s5 & Hfork & H).
  apply bind_Ret in H as (rc & s6 & U0 & H).
  apply bind_Ret in H as ([] & s7 & U1 & H).
  apply bind_Ret in H as (rc' & s8 & U2 & H).
  apply bind_Ret in H as ([] & s9 & U3 & H).
  apply bind_Ret in H as (rc'' & s10 & U4 & H).
  apply bind_Ret in H as ([] & s11 & U5 & H).
  inversion H; subst; clear H.
  destruct (keeps_family_Ret _ _ _ _ (family_dup _) D0) as (_ & _ & N0).
  destruct (keeps_family_Ret _ _ _ _ (family_dup _) D1) as (_ & _ & N1).
  destruct (keeps_family_Ret _ _ _ _ (family_dup _) D2) as (_ & _ & N2).
  assert (N3 : next_pid (world s4) = next_pid (world s3)).
  { unfold sys_pipe in Hpipe. inversion Hpipe; subst. reflexivity. }
  destruct (keeps_family_Ret _ _ _ _ (family_dup2 _ _) U0) as (_ & _ & N5).
  destruct (keeps_family_Ret _ _ _ _ (family_DIE _ _) U1) as (_ & _ & N6).
  destruct (keeps_family_Ret _ _ _ _ (family_close _) U2) as (_ & _ & N7).
  destruct (keeps_family_Ret _ _ _ _ (family_DIE _ _) U3) as (_ & _ & N8).
  destruct (keeps_family_Ret _ _ _ _ (family_close _) U4) as (_ & _ & N9).
  destruct (keeps_family_Ret _ _ _ _ (family_DIE _ _) U5) as (_ & _ & N10).
  unfold fork_child in Hfork.
  destruct (child_end _) as [[ws w]|] eqn:Hc; [|discriminate].
  inversion Hfork; subst; clear Hfork.
  pose proof (child_end_grows _ _ _ _
                (grows_pipe_child eval_cmd1 _ _ _ _ _ He) Hc) as G.
  cbn in G. cbn in N5. lia.
Qed.

(** X22: a pipe whose right side is an external command without
    redirection, once the left side is forked: the program of the right
    side runs with stdin on the read end of the pipe and with the stdout
    and stderr of the shell; the node returns the exit status of that
    program; both children are waited for, and the descriptor table of
    the shell is as before. *)
Theorem pipe_into_external A b up st x stB code :
  std_open (fds (proc st)) -> pids_below st ->
  pipe_prefix
    (parse_command image first_done A (up_of_cmd1 OP_PIPE (Scmd b))) st
  = Ret x stB ->
  (forall q, image q (get_argv b) = Exits code) ->
  runs_external b (hd "" (get_argv b)) = true ->
  s_in b = None -> plain b ->
  exists st',
    parse_command image first_done (Node OP_PIPE A (Scmd b)) up st
    = Ret (Z.land code 255) st'
    /\ fds (proc st') = fds (proc st)
    /\ children (proc st') = children (proc st)
    /\ log (world st')
       = (log (world stB)
          ++ [EvExec (next_pid (world stB)) (get_argv b)
                (Some (PipeRd (next_pipe (world st))))
                (fds (proc st) !! STDOUT_FILENO)
                (fds (proc st) !! STDERR_FILENO)])%list.
Proof.
  intros Hopen [Hpos Hbelow] Hp Himg Hext Hin Hplain.
  destruct (pipe_prefix_inv _ _ _ _ Hopen Hp)
    as (B0 & B1 & B2 & _ & Hfirst & [ws1 Hch] & Hres).
  pose proof (pipe_prefix_pid _ _ _ _
                (grows_parse_command image first_done A _) Hp) as Hpid.
  assert (HopenB : std_open (fds (proc stB))).
  { destruct Hopen as (O0 & O1 & O2). unfold std_open.
    rewrite B0, B1, B2. eauto. }
  destruct (parse_simple_run image first_done b (up_of_cmd2 OP_PIPE) stB
              HopenB) as (t3 & T0 & T1 & T2 & Hrun).
  destruct (runs_external_tests _ _ Hext) as (E1 & E2 & E3 & E4 & E5).
  set (w2 := log_event
               (EvExec (next_pid (world stB)) (get_argv b) (t3 !! STDIN_FILENO)
                  (t3 !! STDOUT_FILENO) (t3 !! STDERR_FILENO))
               (mk_world (files (world stB)) (next_pid (world stB) + 1)
                  (next_pipe (world stB)) (log (world stB)))).
  assert (HB : parse_command image first_done (Scmd b) (up_of_cmd2 OP_PIPE)
                 stB
               = Ret (next_pid (world stB))
                   (mk_state
                      (set_children
                         (children (proc stB)
                          ++ [(next_pid (world stB), wexit code)])
                         (proc stB)) w2)).
  { cbn [parse_command]. rewrite (Hrun _ eq_refl).
    rewrite plain_body by assumption. cbv zeta. rewrite E3, E4, E5.
    unfold up_of_cmd2.
    erewrite run_external_pipe_cmd2.
    2:{ unfold external_child. rewrite Hin. cbn [get_word non_null].
        erewrite bind_eq by reflexivity.
        unfold sys_execvp. rewrite Himg. reflexivity. }
    destruct stB as [[] ?]; reflexivity. }
  cbn [parse_command].
  rewrite (bind_eq _ _ _ _ _ Hp), (bind_eq _ _ _ _ _ HB).
  erewrite (pipe_suffix_run first_done x (next_pid (world stB))
              (fds (proc st)));
    [| |rewrite Hfirst;
        apply sys_waitpid_child
          with (ws := ws1) (l := children (proc st))
               (l' := [(next_pid (world stB), wexit code)]);
        [exact Hpos
        |cbn; rewrite Hch, Hfirst, <- app_assoc; reflexivity
        |eapply Forall_impl; [exact Hbelow|]; cbn; intros c Hc; lia]
     |apply sys_waitpid_child
        with (ws := wexit code) (l := children (proc st)) (l' := []);
        [lia|reflexivity
        |eapply Forall_impl; [exact Hbelow|]; cbn; intros c Hc; lia]].
  2:{ intros T k s4 Hs4. apply Hres. exact Hs4. }
  cbv beta iota. rewrite WEXITSTATUS_wexit.
  eexists. split; [reflexivity|]. subst w2. cbn.
  rewrite app_nil_r, T0, T1, T2, B0, B1, B2. auto.
Qed.

End PipeRuns.

(** ** A leaf whose standard input is closed *)

Section ClosedInput.

Variable image : Proc -> list string -> exec_result.
Variable first_done : list (Z * Z) -> nat.

(** X23: the results of the three [dup] calls of [parse_simple] are not
    checked.  In a process whose stdin is closed the first one fails,
    and whatever the leaf is, [parse_simple] does not return: if its body
    comes back, [restore_fd] on the copy -1 ends the process. *)
Theorem leaf_without_stdin_does_not_return s up st :
  fds (proc st) !! STDIN_FILENO = None ->
  fds (proc st) !! (-1) = None ->
  open12 (fds (proc st)) ->
  forall r st', parse_simple image first_done s up st <> Ret r st'.
Proof.
  intros H0 Hneg [[x1 H1] [x2 H2]] r st'.
  unfold parse_simple. cbv zeta.
  unfold bind at 1. unfold sys_dup at 1. rewrite H0.
  unfold bind at 1. unfold sys_dup at 1. cbn [on_proc proc fds set_errno].
  rewrite H1.
  set (c1 := lowest_free (fds (proc st))).
  assert (F1 : fds (proc st) !! c1 = None) by apply lowest_free_fresh.
  assert (P1 : 0 <= c1) by apply lowest_free_nonneg.
  set (t1 := <[c1 := x1]> (fds (proc st))).
  assert (T12 : t1 !! STDERR_FILENO = Some x2).
  { subst t1. rewrite lookup_insert_ne; [exact H2|]. congruence. }
  unfold bind at 1. unfold sys_dup at 1. cbn [on_proc proc fds set_fds].
  fold t1. rewrite T12.
  set (c2 := lowest_free t1).
  assert (F2 : t1 !! c2 = None) by apply lowest_free_fresh.
  assert (P2 : 0 <= c2) by apply lowest_free_nonneg.
  set (t2 := <[c2 := x2]> t1).
  match goal with
  | |- bind ?m _ ?s3 <> _ =>
      pose proof (rebinds_simple_body image first_done s up
                    (get_word (s_in s)) (get_word (s_out s))
                    (get_word (s_err s)) (get_argv s) s3) as Hb;
      unfold bind at 1; destruct (m s3) as [v s4| |] eqn:Hbody;
      [|discriminate|discriminate]
  end.
  assert (L1 : t2 !! STDOUT_FILENO = Some x1).
  { subst t2 t1. destruct (decide (c2 = STDOUT_FILENO)) as [E|E].
    - exfalso. revert F2. rewrite E.
      destruct (decide (c1 = STDOUT_FILENO)) as [E'|E'].
      + rewrite E'. now rewrite lookup_insert_eq.
      + rewrite lookup_insert_ne by congruence. now rewrite H1.
    - rewrite lookup_insert_ne by congruence.
      destruct (decide (c1 = STDOUT_FILENO)) as [E'|E'].
      + rewrite E'. now rewrite lookup_insert_eq.
      + now rewrite lookup_insert_ne by congruence. }
  assert (L2 : t2 !! STDERR_FILENO = Some x2).
  { subst t2. destruct (decide (c2 = STDERR_FILENO)) as [E|E].
    - rewrite E. now rewrite lookup_insert_eq.
    - now rewrite lookup_insert_ne by congruence. }
  destruct Hb as [Hkeep _]; [split; cbn; fold t1 t2; eauto|].
  specialize (Hkeep (-1)). cbn in Hkeep. fold t1 t2 in Hkeep.
  assert (Hcopy : fds (proc s4) !! (-1) = None).
  { rewrite Hkeep by (unfold STDOUT_FILENO, STDERR_FILENO; lia).
    subst t2 t1. rewrite !lookup_insert_ne by lia. exact Hneg. }
  unfold bind at 1, restore_fd at 1, bind at 1, sys_dup2 at 1.
  rewrite Hcopy. discriminate.
Qed.

End ClosedInput.

(** * The further properties on the concrete system *)

Module ConcreteMore.
Import Scenario ScenarioMore CString.

Lemma st0_open : std_open (fds (proc st0)).
Proof. repeat split; eexists; reflexivity. Qed.

Lemma st0_no_pipe k id : fds (proc st0) !! k <> Some (PipeWr id).
Proof.
  intros H. cbn in H.
  apply lookup_insert_Some in H as [[_ H]|[_ H]]; [discriminate|].
  apply lookup_insert_Some in H as [[_ H]|[_ H]]; [discriminate|].
  apply lookup_singleton_Some in H as [_ H]. discriminate.
Qed.

(** X1, witness: stdout redirected to the file [locked], which exists
    and can be written. *)
Lemma redirect_existing_file_witness :
  redirect STDOUT_FILENO (Some "locked") O_WRONLY st0
  = Ret tt
      (mk_state
         (set_fds (<[STDOUT_FILENO := File "locked" (Z.lor O_TRUNC O_WRONLY)]>
                     (fds proc0)) proc0)
         (log_event (EvTrunc "locked") world0))
  /\ redirect STDOUT_FILENO (Some "locked") O_APPEND st0
     = Ret tt
         (mk_state
            (set_fds (<[STDOUT_FILENO
                        := File "locked" (Z.lor O_APPEND O_WRONLY)]>
                        (fds proc0)) proc0)
            world0).
Proof.
  apply (redirect_existing_file st0 STDOUT_FILENO "locked" false);
    [reflexivity|discriminate|eexists; reflexivity|unfold STDOUT_FILENO; lia].
Defined.


(** X3, witness: stdout redirected to a directory. *)
Lemma redirect_unwritable_aborts_witness :
  exists e,
    redirect STDOUT_FILENO (Some "/tmp") O_WRONLY st0
    = Term (wexit EXIT_FAILURE) (log_event (EvDie "open" e) world0).
Proof.
  apply (redirect_unwritable_aborts st0 STDOUT_FILENO (Some "/tmp") O_WRONLY);
    [right; left; reflexivity|left; reflexivity].
Defined.

(** X4, witness: the terminal kept in descriptor 3 is made stdout again. *)
Lemma restore_fd_consumes_copy_witness :
  exists st',
    restore_fd STDOUT_FILENO 3 st_copy = Ret tt st'
    /\ fds (proc st') !! STDOUT_FILENO = Some (Tty 1)
    /\ fds (proc st') !! 3 = None.
Proof.
  destruct (restore_fd_consumes_copy st_copy STDOUT_FILENO 3 (Tty 1))
    as (st' & H & H1 & H3 & _);
    [reflexivity|discriminate|unfold STDOUT_FILENO; lia|].
  exists st'. auto.
Defined.

(** X5, witness: the word [pwd] holds no '='. *)
Lemma split_without_eq_overruns_witness :
  scan (buffer_of "pwd") 0 = None /\ split_strings "pwd" = None.
Proof.
  apply (CStringMore.split_without_eq_overruns "pwd").
  simpl. intros H.
  repeat (destruct H as [H|H]; [discriminate H|]). exact H.
Defined.

(** X6, witness: the name [HOME] and a value with a '=' in it. *)
Lemma split_env_command_round_trip_witness :
  split_strings "HOME=/tmp=x" = Some ("HOME", "/tmp=x").
Proof.
  apply (CStringMore.split_env_command_round_trip "HOME" "/tmp=x");
    simpl; intros H;
    repeat (destruct H as [H|H]; [discriminate H|]); exact H.
Defined.

(** X7, witness: [quit > locked] leaves the file alone. *)
Lemma exit_leaves_state_witness :
  parse_simple image oldest (leaf "quit" None (Some "locked") None) Root st0
  = Ret SHELL_EXIT st0.
Proof.
  apply (exit_leaves_state image oldest
           (leaf "quit" None (Some "locked") None) Root st0);
    [right; reflexivity|apply st0_open].
Defined.


(** X9, witness: [pwd] in the root directory. *)
Lemma pwd_writes_directory_witness :
  parse_simple image oldest (simple "pwd" []) Root st0
  = Ret EXIT_SUCCESS
      (on_world (log_event (EvWrite (Tty 1) ("/" ++ newline))) st0).
Proof.
  etransitivity.
  - apply (pwd_writes_directory image oldest (simple "pwd" []) Root st0
             (Tty 1));
      [reflexivity|repeat split|apply st0_open|reflexivity].
  - vm_compute. reflexivity.
Defined.


(** X11, witness: [X=1]. *)
Lemma assignment_sets_variable_witness :
  exists st',
    parse_simple image oldest (assign "X" "1") Root st0 = Ret 0 st'
    /\ env (proc st') !! "X" = Some "1".
Proof.
  destruct (assignment_sets_variable image oldest (assign "X" "1") Root st0
              ["1"] (Tty 2)) as (st' & H & He & _);
    [reflexivity|discriminate
    |simpl; intros H; repeat (destruct H as [H|H]; [discriminate H|]);
     exact H ..
    |repeat split|apply st0_open|reflexivity|].
  exists st'. auto.
Defined.

(** X12, witness: [=1]. *)
Lemma assignment_empty_name_fails_witness :
  parse_simple image oldest (assign "" "1") Root st0
  = Ret EXIT_FAILURE
      (on_world (log_event (EvWrite (Tty 2) ("Invalid argument" ++ newline)))
         (on_proc (set_errno EINVAL) st0)).
Proof.
  apply (assignment_empty_name_fails image oldest (assign "" "1") Root st0
           ["1"] (Tty 2));
    [reflexivity|reflexivity
    |simpl; intros H; repeat (destruct H as [H|H]; [discriminate H|]);
     exact H
    |repeat split|apply st0_open|reflexivity].
Defined.

(** X13, witness: a program that is not on the path. *)
Lemma command_not_run_witness :
  exists st',
    parse_simple image oldest (simple "nothing" []) Root st0
    = Ret EXIT_FAILURE st'
    /\ log (world st')
       = [EvWrite (Tty 2) ("Execution failed for 'nothing'" ++ newline)].
Proof.
  destruct (command_not_run image oldest (simple "nothing" []) Root st0
              ENOENT (Tty 2)) as (st' & H & Hl & _);
    [intros q; reflexivity|reflexivity|reflexivity|repeat split
    |apply st0_open|reflexivity|reflexivity|discriminate|discriminate|].
  exists st'. split; [exact H|exact Hl].
Defined.

(** X14, witness: [seven < /etc/motd]. *)
Lemma input_redirection_in_child_witness :
  exists st',
    parse_simple image oldest (leaf "seven" (Some "/etc/motd") None None)
      Root st0 = Ret 7 st'
    /\ log (world st')
       = [EvExec 100 ["seven"] (Some (File "/etc/motd" O_RDONLY))
            (Some (Tty 1)) (Some (Tty 2))]
    /\ fds (proc st') = fds proc0.
Proof.
  destruct (input_redirection_in_child image oldest
              (leaf "seven" (Some "/etc/motd") None None) Root st0
              (mk_word "/etc/motd" []) 7 7 false (Tty 0) (Tty 1) (Tty 2))
    as (st' & H & Hl & Hf & _);
    [intros q; reflexivity|reflexivity|reflexivity|repeat split
    |reflexivity|discriminate|reflexivity|reflexivity|reflexivity
    |reflexivity|discriminate|discriminate|reflexivity|].
  exists st'. split; [exact H|]. split; [exact Hl|exact Hf].
Defined.

(** X15, witness: [pwd > locked]. *)
Lemma pwd_to_existing_file_witness :
  parse_simple image oldest (leaf "pwd" None (Some "locked") None) Root st0
  = Ret EXIT_SUCCESS
      (on_world
         (fun w =>
            log_event
              (EvWrite (File "locked" (Z.lor O_TRUNC O_WRONLY))
                 ("/" ++ newline))
              (log_event (EvTrunc "locked") w)) st0).
Proof.
  apply (pwd_to_existing_file image oldest
           (leaf "pwd" None (Some "locked") None) Root st0
           (mk_word "locked" []) false);
    [reflexivity|reflexivity|reflexivity|reflexivity|reflexivity
    |discriminate|reflexivity|apply st0_open].
Defined.


(** X17, witness: stdout overwritten and stderr appended, both on
    [locked]. *)
Lemma append_marks_respected_witness :
  exists st',
    apply_io_flags
      (mk_simple (mk_word "pwd" []) [] None (Some (mk_word "locked" []))
         (Some (mk_word "locked" [])) 2)
      (Some "locked") (Some "locked") st0 = Ret tt st'
    /\ fds (proc st') !! STDOUT_FILENO
       = Some (File "locked" (Z.lor O_TRUNC O_WRONLY))
    /\ fds (proc st') !! STDERR_FILENO
       = Some (File "locked" (Z.lor O_APPEND O_WRONLY))
    /\ log (world st') = [EvTrunc "locked"].
Proof.
  destruct (append_marks_respected
              (mk_simple (mk_word "pwd" []) [] None
                 (Some (mk_word "locked" [])) (Some (mk_word "locked" [])) 2)
              st0 (mk_word "locked" []) (mk_word "locked" []) false false)
    as (st' & H & H1 & H2 & _ & Hl & _);
    [reflexivity|reflexivity|cbn; lia|reflexivity|reflexivity
    |discriminate|discriminate|split; eexists; reflexivity|].
  exists st'. split; [exact H|]. split; [exact H1|].
  split; [exact H2|exact Hl].
Defined.

(** X18, witness: [pwd > out.txt ; two | seven]. *)
Lemma evaluation_keeps_descriptor_table_witness :
  exists st',
    run (Node OP_SEQUENTIAL (Scmd pwd_to_file)
           (Node OP_PIPE cmd_two cmd_seven)) = Ret 7 st'
    /\ fds (proc st') = fds proc0.
Proof.
  eexists. split; [vm_compute; reflexivity|].
  apply (evaluation_keeps_descriptor_table image oldest
           (Node OP_SEQUENTIAL (Scmd pwd_to_file)
              (Node OP_PIPE cmd_two cmd_seven)) Root st0 7);
    [apply st0_open|vm_compute; reflexivity].
Defined.

(** X19, witness: [exit | two] returns 2 and the shell goes on. *)
Lemma pipe_returns_a_status_witness :
  exists st',
    run (Node OP_PIPE cmd_exit cmd_two) = Ret 2 st'
    /\ 0 <= 2 <= 255 /\ 2 <> SHELL_EXIT.
Proof.
  eexists. split; [vm_compute; reflexivity|].
  eapply (pipe_returns_a_status image oldest cmd_exit cmd_two Root st0 2).
  vm_compute. reflexivity.
Defined.

(** X20, witness: [two | pwd]. *)
Lemma pipe_status_uninitialised_witness :
  run (Node OP_PIPE cmd_two cmd_pwd) = Undef.
Proof.
  eapply (pipe_status_uninitialised image oldest cmd_two cmd_pwd Root st0);
    [apply st0_open|vm_compute; reflexivity ..].
Defined.

(** X21, witness: the shell after the left side of [two | seven] is
    forked. *)
Lemma pipe_parent_holds_read_end_only_witness :
  exists x stB,
    pipe_prefix
      (parse_command image oldest cmd_two (up_of_cmd1 OP_PIPE cmd_seven)) st0
    = Ret x stB
    /\ fds (proc stB) !! STDIN_FILENO = Some (PipeRd 0)
    /\ forall k, fds (proc stB) !! k <> Some (PipeWr 0).
Proof.
  eexists _, _. split; [vm_compute; reflexivity|].
  split; [vm_compute; reflexivity|].
  eapply (pipe_parent_holds_read_end_only image oldest cmd_two cmd_seven st0);
    [apply st0_open|intros k; apply st0_no_pipe|vm_compute; reflexivity].
Defined.

(** X22, witness: [two | seven]. *)
Lemma pipe_into_external_witness :
  exists st',
    run (Node OP_PIPE cmd_two cmd_seven) = Ret 7 st'
    /\ children (proc st') = []
    /\ log (world st')
       = [EvExec 101 ["two"] (Some (Tty 0)) (Some (PipeWr 0)) (Some (Tty 2));
          EvExec 102 ["seven"] (Some (PipeRd 0)) (Some (Tty 1))
            (Some (Tty 2))].
Proof.
  edestruct (pipe_into_external image oldest cmd_two (simple "seven" []) Root
               st0) as (st' & H & _ & Hc & Hl);
    [apply st0_open|split; [reflexivity|constructor]|vm_compute; reflexivity
    |intros q; reflexivity|reflexivity|reflexivity|repeat split|].
  exists st'. split; [exact H|]. split; [exact Hc|exact Hl].
Defined.

(** X23, witness: [pwd] in a shell whose stdin is closed. *)
Lemma leaf_without_stdin_does_not_return_witness :
  result_of (parse_simple image oldest (simple "pwd" []) Root st_noin) = None.
Proof.
  destruct (parse_simple image oldest (simple "pwd" []) Root st_noin)
    as [r st'| |] eqn:E; [|reflexivity ..].
  exfalso. revert E.
  apply (leaf_without_stdin_does_not_return image oldest (simple "pwd" [])
           Root st_noin);
    [reflexivity|reflexivity|split; eexists; reflexivity].
Defined.

End ConcreteMore.
